(** * Volume resolution and mounting of the container daemon

    A shallow embedding of [daemon/volumes.go]: the bind-mount and
    volumes-from parsers, the volume initializer with its file-system side
    effects, the volume set builder and the mount list assembler, followed by
    the properties established about them. *)

From Stdlib Require Import ZArith Ascii.
From stdpp Require Import gmap strings list fin_maps sorting.

Local Open Scope Z_scope.

(** ** Data model *)

(** [type Volume struct]. *)
Record Volume := mkVolume {
  HostPath : string;
  VolPath : string;
  isReadWrite : bool;
  isBindMount : bool;
}.

(** The zero value of [Volume] ([var vol Volume]). *)
Definition zeroVolume : Volume := mkVolume "" "" false false.

(** [execdriver.Mount], with the fields the file assigns; the ones it leaves
    out of a literal are [false]. *)
Record Mount := mkMount {
  Source : string;
  Destination : string;
  Writable : bool;
  Private : bool;
  Slave : bool;
}.

(** The fields of [Container] that the file reads or writes.  A Go map that
    is [nil] reads like the empty map; the writes of [initialize] happen
    after [prepareVolumesForContainer] has allocated both maps. *)
Record Container := mkContainer {
  Volumes : gmap string string;
  VolumesRW : gmap string bool;
  ResolvConfPath : string;
  HostnamePath : string;
  HostsPath : string;
  basefs : string;
  Config_Volumes : gset string;
  hostConfig_VolumesFrom : list string;
  command_Mounts : list Mount;
}.

Definition set_Volumes (c : Container) (m : gmap string string) : Container :=
  mkContainer m (VolumesRW c) (ResolvConfPath c) (HostnamePath c) (HostsPath c)
    (basefs c) (Config_Volumes c) (hostConfig_VolumesFrom c) (command_Mounts c).

Definition set_VolumesRW (c : Container) (m : gmap string bool) : Container :=
  mkContainer (Volumes c) m (ResolvConfPath c) (HostnamePath c) (HostsPath c)
    (basefs c) (Config_Volumes c) (hostConfig_VolumesFrom c) (command_Mounts c).

Definition set_Mounts (c : Container) (ms : list Mount) : Container :=
  mkContainer (Volumes c) (VolumesRW c) (ResolvConfPath c) (HostnamePath c)
    (HostsPath c) (basefs c) (Config_Volumes c) (hostConfig_VolumesFrom c) ms.

(** ** Errors *)

Inductive errno := ENOENT | EACCES | ENOTDIR | EEXIST | EROFS | EIO.

(** The values of Go's [error] that occur: one constructor for each
    [fmt.Errorf] of the file, and the system errors of the calls it makes. *)
Inductive error :=
  | ErrMalformedVolumesFrom (spec : string)
      (* "Malformed volumes-from specification: %s" *)
  | ErrContainerNotFound (name : string)
      (* "Container %s not found. Impossible to mount its volumes" *)
  | ErrInvalidMode (mode : string)
      (* "Invalid mode for volumes-from: %s" *)
  | ErrInvalidVolumeSpec (spec : string)
      (* "Invalid volume specification: %s" *)
  | ErrNotAbsolute (hostPath : string)
      (* "cannot bind mount volume: %s volume paths must be absolute." *)
  | ErrDriverGet (id : string) (cause : error)
      (* "Driver %s failed to get volume rootfs %s: %s" *)
  | ErrSys (e : errno)
  | ErrOther (msg : string).

(** A Go result [(T, error)] whose value is only read when the error is
    [nil]. *)
Inductive res (A : Type) :=
  | Ok (a : A)
  | Err (e : error).
Arguments Ok {A} a.
Arguments Err {A} e.

(** ** Files and the calls made on them *)

(** [os.FileInfo], as far as the file looks at it. *)
Record FileInfo := mkFileInfo { Name : string; IsDir : bool }.

(** [syscall.Stat_t], as far as the file looks at it. *)
Record Stat_t := mkStat_t { Uid : Z; Gid : Z; Mode : Z }.

(** One call that leaves the daemon, with what it answered. *)
Inductive event :=
  | EvStat (path : string) (r : res FileInfo)
  | EvMkdirAll (path : string) (perm : Z) (r : option error)
  | EvOpenFile (path : string) (flag perm : Z) (r : option error)
  | EvReadDir (path : string) (r : res (list FileInfo))
  | EvCopyWithTar (src dst : string) (r : option error)
  | EvSyscallStat (path : string) (r : res Stat_t)
  | EvChown (path : string) (uid gid : Z) (r : option error)
  | EvChmod (path : string) (mode : Z) (r : option error)
  | EvEvalSymlinks (path : string) (r : res string)
  | EvFollowSymlinkInScope (path root : string) (r : res string)
  | EvVolumesCreate (r : res string)
  | EvDriverGet (id : string) (r : string * option error).

(** What the file takes from its collaborators, over a host state [W]: the
    operating system, the archive copier, the symlink resolver, the volume
    graph and its driver, the container registry, [Container.GetVolumes],
    and the order in which a [range] visits a map (Go leaves it open; it is
    some enumeration of the entries). *)
Class Env (W : Type) := {
  host_Stat : string → W → res FileInfo;
  host_MkdirAll : string → Z → W → option error * W;
  host_OpenFile : string → Z → Z → W → option error * W;
  host_ReadDir : string → W → res (list FileInfo);
  host_CopyWithTar : string → string → W → option error * W;
  host_SyscallStat : string → W → res Stat_t;
  host_Chown : string → Z → Z → W → option error * W;
  host_Chmod : string → Z → W → option error * W;
  host_EvalSymlinks : string → W → res string;
  host_FollowSymlinkInScope : string → string → W → res string;
  graph_Create : W → res string * W;
  driver_Get : string → W → (string * option error) * W;
  daemon_Get : string → option Container;
  container_GetVolumes : Container → res (gmap string Volume);
  range_map : ∀ V : Type, gmap string V → list (string * V);
  range_map_perm : ∀ (V : Type) (m : gmap string V), range_map V m ≡ₚ map_to_list m;
  range_set : gset string → list string;
  range_set_perm : ∀ s : gset string, range_set s ≡ₚ elements s;
}.
Arguments range_map {W _ V} m.

(** ** Effects: host state passing with a log of the calls *)

Definition M (W A : Type) : Type := W → A * W * list event.

Definition ret {W A} (a : A) : M W A := λ w, (a, w, []).

Definition bind {W A B} (m : M W A) (k : A → M W B) : M W B :=
  λ w, let '(a, w1, t1) := m w in
       let '(b, w2, t2) := k a w1 in
       (b, w2, t1 ++ t2).

Notation "x <~ m ;; k" := (bind m (λ x, k))
  (at level 100, m at next level, right associativity, only parsing).

(** The value, the final host state and the calls of a run. *)
Definition value_of {A W} (r : A * W * list event) : A := r.1.1.
Definition host_of {A W} (r : A * W * list event) : W := r.1.2.
Definition calls_of {A W} (r : A * W * list event) : list event := r.2.

(** ** The Go library functions the file calls *)

(** Package [strings], for a separator of one byte (the source only splits
    on a colon). *)
Module strings.

(** [Cut s sep] is the text before and after the first [sep] of [s]. *)
Fixpoint Cut (s : string) (sep : ascii) : option (string * string) :=
  match s with
  | EmptyString => None
  | String a s' =>
      if Ascii.eqb a sep then Some (EmptyString, s')
      else match Cut s' sep with
           | Some (b, r) => Some (String a b, r)
           | None => None
           end
  end.

Fixpoint Count (s : string) (sep : ascii) : nat :=
  match s with
  | EmptyString => 0%nat
  | String a s' => ((if Ascii.eqb a sep then 1 else 0) + Count s' sep)%nat
  end.

(** [SplitN s sep n] for [n >= 0]: at most [n] fields, the last one the
    unsplit remainder. *)
Fixpoint SplitN (s : string) (sep : ascii) (n : nat) : list string :=
  match n with
  | O => []
  | S n' =>
      match n' with
      | O => [s]
      | S _ =>
          match Cut s sep with
          | None => [s]
          | Some (b, r) => b :: SplitN r sep n'
          end
      end
  end.

(** [Split] is [SplitN] with one field more than there are separators. *)
Definition Split (s : string) (sep : ascii) : list string :=
  SplitN s sep (S (Count s sep)).

Fixpoint Join (elems : list string) (sep : string) : string :=
  match elems with
  | [] => ""
  | [e] => e
  | e :: es => e +:+ sep +:+ Join es sep
  end.

Definition HasPrefix_byte (s : string) (c : ascii) : bool :=
  match s with
  | String a _ => Ascii.eqb a c
  | EmptyString => false
  end.

End strings.

(** Package [path/filepath] on a Unix host: the separator is a slash and
    there are no volume names. *)
Module filepath.

Definition IsAbs (path : string) : bool := strings.HasPrefix_byte path "/".

(** The lexical reduction of [Clean] on the elements of a path; [out] is
    the stack of elements kept so far, innermost first. *)
Fixpoint clean_elems (rooted : bool) (out : list string)
    (elems : list string) : list string :=
  match elems with
  | [] => rev out
  | e :: es =>
      if bool_decide (e = "" ∨ e = ".") then clean_elems rooted out es
      else if bool_decide (e = "..") then
        match out with
        | top :: out' =>
            if bool_decide (top = "..")
            then clean_elems rooted (e :: out) es
            else clean_elems rooted out' es
        | [] =>
            if rooted then clean_elems rooted [] es
            else clean_elems rooted [e] es
        end
      else clean_elems rooted (e :: out) es
  end.

Definition Clean (path : string) : string :=
  let rooted := IsAbs path in
  let body := strings.Join (clean_elems rooted [] (strings.Split path "/")) "/" in
  let out := if rooted then "/" +:+ body else body in
  if bool_decide (out = "") then "." else out.

(** [Join] drops the leading empty elements, joins the rest with a slash
    and cleans the result. *)
Fixpoint Join (elem : list string) : string :=
  match elem with
  | [] => ""
  | e :: es =>
      if bool_decide (e = "") then Join es
      else Clean (strings.Join elem "/")
  end.

(** The text of [path] up to and including its last slash. *)
Fixpoint through_last_slash (path : string) : string :=
  match path with
  | EmptyString => ""
  | String a s' =>
      if bool_decide (strings.Count path "/" = 0%nat) then ""
      else String a (through_last_slash s')
  end.

Definition Dir (path : string) : string := Clean (through_last_slash path).

Definition EvalSymlinks `{Env W} (path : string) : M W (res string) :=
  λ w, let r := host_EvalSymlinks path w in (r, w, [EvEvalSymlinks path r]).

End filepath.

Arguments filepath.Clean : simpl never.
Arguments filepath.Join : simpl never.
Arguments filepath.Dir : simpl never.

Module os.

Definition O_CREATE : Z := 64.

Definition Stat `{Env W} (name : string) : M W (res FileInfo) :=
  λ w, let r := host_Stat name w in (r, w, [EvStat name r]).

Definition MkdirAll `{Env W} (path : string) (perm : Z) : M W (option error) :=
  λ w, let '(r, w') := host_MkdirAll path perm w in (r, w', [EvMkdirAll path perm r]).

(** [os.OpenFile] followed by the [Close] of the file it returns. *)
Definition OpenFile `{Env W} (name : string) (flag perm : Z) : M W (option error) :=
  λ w, let '(r, w') := host_OpenFile name flag perm w in
       (r, w', [EvOpenFile name flag perm r]).

Definition Chown `{Env W} (name : string) (uid gid : Z) : M W (option error) :=
  λ w, let '(r, w') := host_Chown name uid gid w in (r, w', [EvChown name uid gid r]).

Definition Chmod `{Env W} (name : string) (mode : Z) : M W (option error) :=
  λ w, let '(r, w') := host_Chmod name mode w in (r, w', [EvChmod name mode r]).

(** [os.IsNotExist]. *)
Definition IsNotExist (err : error) : bool :=
  match err with
  | ErrSys ENOENT => true
  | _ => false
  end.

End os.

Module ioutil.

Definition ReadDir `{Env W} (dirname : string) : M W (res (list FileInfo)) :=
  λ w, let r := host_ReadDir dirname w in (r, w, [EvReadDir dirname r]).

End ioutil.

Module archive.

Definition CopyWithTar `{Env W} (src dst : string) : M W (option error) :=
  λ w, let '(r, w') := host_CopyWithTar src dst w in (r, w', [EvCopyWithTar src dst r]).

End archive.

Module syscall.

Definition Stat `{Env W} (path : string) : M W (res Stat_t) :=
  λ w, let r := host_SyscallStat path w in (r, w, [EvSyscallStat path r]).

End syscall.

Module symlink.

Definition FollowSymlinkInScope `{Env W} (link root : string) : M W (res string) :=
  λ w, let r := host_FollowSymlinkInScope link root w in
       (r, w, [EvFollowSymlinkInScope link root r]).

End symlink.

(** [sort.Strings]: ascending in the byte order of Go's [<] on strings. *)
Module sort.

Definition Strings (a : list string) : list string := merge_sort String.le a.

End sort.

(** ** The functions of [daemon/volumes.go] *)

(** Reading a Go map at a key it may lack gives the zero value. *)
Definition index_string (m : gmap string string) (k : string) : string :=
  default "" (m !! k).
Definition index_bool (m : gmap string bool) (k : string) : bool :=
  default false (m !! k).

Section volumes.
Context {W : Type} `{Env W}.

(** [func (v *Volume) isDir() (bool, error)]. *)
Definition isDir (v : Volume) : M W (res bool) :=
  r <~ os.Stat (HostPath v) ;;
  match r with
  | Err err => ret (Err err)
  | Ok stat => ret (Ok (IsDir stat))
  end.

(** [func (container *Container) sortedVolumeMounts() []string]. *)
Definition sortedVolumeMounts (container : Container) : list string :=
  let mountPaths := (range_map (Volumes container)).*1 in
  sort.Strings mountPaths.

(** [func setupMountsForContainer(container *Container) error]; the
    container comes back with [command.Mounts] assigned. *)
Definition setupMountsForContainer (container : Container) : Container * option error :=
  let mounts := [ mkMount (ResolvConfPath container) "/etc/resolv.conf" true false true ] in
  let mounts :=
    if bool_decide (HostnamePath container ≠ "")
    then mounts ++ [ mkMount (HostnamePath container) "/etc/hostname" true true false ]
    else mounts in
  let mounts :=
    if bool_decide (HostsPath container ≠ "")
    then mounts ++ [ mkMount (HostsPath container) "/etc/hosts" true false true ]
    else mounts in
  let mounts :=
    foldl (λ mounts path,
             mounts ++ [ mkMount (index_string (Volumes container) path) path
                           (index_bool (VolumesRW container) path) false false ])
          mounts (sortedVolumeMounts container) in
  (set_Mounts container mounts, None).

(** [func validVolumeMode(mode string) bool]. *)
Definition validVolumeMode (mode : string) : bool :=
  let validModes : gmap string bool := <["rw" := true]> (<["ro" := true]> ∅) in
  index_bool validModes mode.

(** [func parseVolumesFromSpec(container *Container, spec string)
    (map[string]*Volume, error)]. *)
Definition parseVolumesFromSpec (container : Container) (spec : string)
    : res (gmap string Volume) :=
  let specParts := strings.SplitN spec ":" 2 in
  if bool_decide (length specParts = 0%nat) then Err (ErrMalformedVolumesFrom spec)
  else
    match daemon_Get (nth 0 specParts "") with
    | None => Err (ErrContainerNotFound (nth 0 specParts ""))
    | Some c =>
        match container_GetVolumes c with
        | Err err => Err err
        | Ok volumes =>
            if bool_decide (length specParts = 2%nat) then
              let mode := nth 1 specParts "" in
              if validVolumeMode mode then Err (ErrInvalidMode mode)
              else
                (* Set the mode for the inherited volume *)
                Ok ((λ v, mkVolume (HostPath v) (VolPath v)
                            (bool_decide (mode ≠ "ro")) (isBindMount v))
                      <$> volumes)
            else Ok volumes
        end
    end.

(** [func parseBindVolumeSpec(spec string) (Volume, error)]; the volume is
    returned next to the error, as in the source. *)
Definition parseBindVolumeSpec (spec : string) : Volume * option error :=
  let arr := strings.Split spec ":" in
  let vol := zeroVolume in
  let after_switch : Volume + Volume * error :=
    match length arr with
    | 1%nat => inl (mkVolume (HostPath vol) spec true (isBindMount vol))
    | 2%nat => inl (mkVolume (nth 0 arr "") (nth 1 arr "") true (isBindMount vol))
    | 3%nat =>
        inl (mkVolume (nth 0 arr "") (nth 1 arr "")
               (validVolumeMode (nth 2 arr "") && bool_decide (nth 2 arr "" = "rw"))
               (isBindMount vol))
    | _ => inr (vol, ErrInvalidVolumeSpec spec)
    end in
  match after_switch with
  | inr (vol, err) => (vol, Some err)
  | inl vol =>
      if negb (filepath.IsAbs (HostPath vol))
      then (vol, Some (ErrNotAbsolute (HostPath vol)))
      else (vol, None)
  end.

(** [func createVolumeHostPath(container *Container) (string, error)]. *)
Definition createVolumeHostPath (container : Container) : M W (string * option error) :=
  c <~ (λ w, let '(r, w') := graph_Create w in (r, w', [EvVolumesCreate r])) ;;
  match c with
  | Err err => ret ("", Some err)
  | Ok c_ID =>
      g <~ (λ w, let '(r, w') := driver_Get c_ID w in (r, w', [EvDriverGet c_ID r])) ;;
      match g with
      | (hostPath, Some err) => ret (hostPath, Some (ErrDriverGet c_ID err))
      | (hostPath, None) => ret (hostPath, None)
      end
  end.

(** [func createIfNotExists(destination string, isDir bool) error]. *)
Definition createIfNotExists (destination : string) (isDir : bool) : M W (option error) :=
  st <~ os.Stat destination ;;
  if match st with
     | Ok _ => true
     | Err err => negb (os.IsNotExist err)
     end
  then ret None
  else if isDir then os.MkdirAll destination 493
  else
    err <~ os.MkdirAll (filepath.Dir destination) 493 ;;
    match err with
    | Some err => ret (Some err)
    | None =>
        err <~ os.OpenFile destination os.O_CREATE 493 ;;
        match err with
        | Some err => ret (Some err)
        | None => ret None
        end
    end.

(** [func copyOwnership(source, destination string) error]. *)
Definition copyOwnership (source destination : string) : M W (option error) :=
  st <~ syscall.Stat source ;;
  match st with
  | Err err => ret (Some err)
  | Ok stat =>
      err <~ os.Chown destination (Uid stat) (Gid stat) ;;
      match err with
      | Some err => ret (Some err)
      | None => os.Chmod destination (Mode stat)
      end
  end.

(** [func copyExistingContents(source, destination string) error]. *)
Definition copyExistingContents (source destination : string) : M W (option error) :=
  r <~ ioutil.ReadDir source ;;
  match r with
  | Err err => ret (Some err)
  | Ok volList =>
      if bool_decide (0 < length volList)%nat then
        r <~ ioutil.ReadDir destination ;;
        match r with
        | Err err => ret (Some err)
        | Ok srcList =>
            if bool_decide (length srcList = 0%nat) then
              err <~ archive.CopyWithTar source destination ;;
              match err with
              | Some err => ret (Some err)
              | None => copyOwnership source destination
              end
            else copyOwnership source destination
        end
      else copyOwnership source destination
  end.

(** [func (v *Volume) initialize(container *Container) error]: the volume
    and the container are updated in place by the source, and come back
    here next to the error. *)
Definition initialize (v : Volume) (container : Container)
    : M W (Volume * Container * option error) :=
  let v := mkVolume (HostPath v) (filepath.Clean (VolPath v)) (isReadWrite v) (isBindMount v) in
  (* Do not initialize an existing volume *)
  if bool_decide (is_Some (Volumes container !! VolPath v)) then ret (v, container, None)
  else
    (* If it's not a bindmount we need to create the dir on the host *)
    a <~ (if negb (isBindMount v) && bool_decide (HostPath v = "")
          then
            r <~ createVolumeHostPath container ;;
            ret (mkVolume r.1 (VolPath v) (isReadWrite v) (isBindMount v), r.2)
          else ret (v, None)) ;;
    let v := a.1 in
    match a.2 with
    | Some err => ret (v, container, Some err)
    | None =>
        r <~ filepath.EvalSymlinks (HostPath v) ;;
        match r with
        | Err err => ret (v, container, Some err)
        | Ok hostPath =>
            r <~ symlink.FollowSymlinkInScope
                   (filepath.Join [basefs container; VolPath v]) (basefs container) ;;
            match r with
            | Err err => ret (v, container, Some err)
            | Ok fullVolPath =>
                let container :=
                  set_Volumes container (<[VolPath v := hostPath]> (Volumes container)) in
                let container :=
                  set_VolumesRW container
                    (<[VolPath v := isReadWrite v]> (VolumesRW container)) in
                r <~ isDir v ;;
                match r with
                | Err err => ret (v, container, Some err)
                | Ok volIsDir =>
                    err <~ createIfNotExists fullVolPath volIsDir ;;
                    match err with
                    | Some err => ret (v, container, Some err)
                    | None =>
                        (* Do not copy or change permissions if we are
                           mounting from the host *)
                        if isReadWrite v && negb (isBindMount v) then
                          err <~ copyExistingContents fullVolPath hostPath ;;
                          ret (v, container, err)
                        else ret (v, container, None)
                    end
                end
            end
        end
    end.

(** [for _, v := range volumes { if err = v.initialize(container); err != nil
    { return err } }], the loop that ends [createVolumes] and sits inside
    [applyVolumesFrom]. *)
Fixpoint range_initialize (volumes : list Volume) (container : Container)
    : M W (Container * option error) :=
  match volumes with
  | [] => ret (container, None)
  | v :: rest =>
      r <~ initialize v container ;;
      match r.2 with
      | Some err => ret (r.1.2, Some err)
      | None => range_initialize rest r.1.2
      end
  end.

(** [func applyVolumesFrom(container *Container) error], as the loop over
    [container.hostConfig.VolumesFrom]. *)
Fixpoint applyVolumesFrom_loop (volumesFrom : list string) (container : Container)
    : M W (Container * option error) :=
  match volumesFrom with
  | [] => ret (container, None)
  | spec :: rest =>
      match parseVolumesFromSpec container spec with
      | Err err => ret (container, Some err)
      | Ok volumes =>
          r <~ range_initialize (range_map volumes).*2 container ;;
          match r.2 with
          | Some err => ret (r.1, Some err)
          | None => applyVolumesFrom_loop rest r.1
          end
      end
  end.

Definition applyVolumesFrom (container : Container) : M W (Container * option error) :=
  applyVolumesFrom_loop (hostConfig_VolumesFrom container) container.

(** The first loop of [createVolumes]: the paths of [container.Config.Volumes]
    that [volumes] lacks are added as managed volumes. *)
Definition add_config_volumes (volumes : gmap string Volume) (paths : list string)
    : gmap string Volume :=
  foldl (λ volumes volPath,
           (* Make sure the volume isn't already specified as a bindmount *)
           if bool_decide (is_Some (volumes !! volPath)) then volumes
           else <[volPath := mkVolume "" volPath true false]> volumes)
        volumes paths.

(** [func createVolumes(container *Container) error]. *)
Definition createVolumes (container : Container) : M W (Container * option error) :=
  match container_GetVolumes container with
  | Err err => ret (container, Some err)
  | Ok volumes =>
      let volumes := add_config_volumes volumes (range_set (Config_Volumes container)) in
      range_initialize (range_map volumes).*2 container
  end.

(** [func prepareVolumesForContainer(container *Container) error]. *)
Definition prepareVolumesForContainer (container : Container)
    : M W (Container * option error) :=
  if bool_decide (size (Volumes container) = 0%nat) then
    let container := set_VolumesRW (set_Volumes container ∅) ∅ in
    r <~ applyVolumesFrom container ;;
    match r.2 with
    | Some err => ret (r.1, Some err)
    | None => createVolumes r.1
    end
  else createVolumes container.

End volumes.

Arguments isDir : simpl never.
Arguments createVolumeHostPath : simpl never.
Arguments createIfNotExists : simpl never.
Arguments copyOwnership : simpl never.
Arguments copyExistingContents : simpl never.
Arguments initialize : simpl never.

(** ** A host to run the functions on

    A small host without symbolic links: files and directories by their
    cleaned absolute path, each with owner and mode; a switch that makes
    every write fail, as on a read-only file system; the volumes the graph
    has handed out; and the registry of containers. *)
Module TestHost.

Record node := mkNode { node_dir : bool; node_uid : Z; node_gid : Z; node_mode : Z }.

Record host := mkHost {
  files : gmap string node;
  read_only : bool;
  next_volume : nat;
}.

Definition S_IFDIR : Z := 16384.
Definition S_IFREG : Z := 32768.

Definition with_files (w : host) (fs : gmap string node) : host :=
  mkHost fs (read_only w) (next_volume w).

Definition Base (path : string) : string := List.last (strings.Split path "/") "".

(** [path] and the directories above it, outermost first. *)
Fixpoint ancestors (fuel : nat) (path : string) (acc : list string) : list string :=
  match fuel with
  | O => path :: acc
  | S fuel' =>
      let up := filepath.Dir path in
      if bool_decide (up = path) then path :: acc
      else ancestors fuel' up (path :: acc)
  end.

Fixpoint mkdirs (paths : list string) (perm : Z) (fs : gmap string node)
    : option error * gmap string node :=
  match paths with
  | [] => (None, fs)
  | p :: rest =>
      match fs !! p with
      | Some n =>
          if node_dir n then mkdirs rest perm fs else (Some (ErrSys ENOTDIR), fs)
      | None => mkdirs rest perm (<[p := mkNode true 0 0 (S_IFDIR + perm)]> fs)
      end
  end.

Definition MkdirAll (path : string) (perm : Z) (w : host) : option error * host :=
  if read_only w then (Some (ErrSys EROFS), w)
  else
    let '(r, fs) := mkdirs (ancestors (String.length path) (filepath.Clean path) [])
                      perm (files w) in
    (r, with_files w fs).

Definition Stat (path : string) (w : host) : res FileInfo :=
  match files w !! path with
  | Some n => Ok (mkFileInfo (Base path) (node_dir n))
  | None => Err (ErrSys ENOENT)
  end.

Definition OpenFile (path : string) (flag perm : Z) (w : host) : option error * host :=
  if read_only w then (Some (ErrSys EROFS), w)
  else
    match files w !! path with
    | Some _ => (None, w)
    | None =>
        match files w !! filepath.Dir path with
        | Some d =>
            if node_dir d
            then (None, with_files w (<[path := mkNode false 0 0 (S_IFREG + perm)]> (files w)))
            else (Some (ErrSys ENOTDIR), w)
        | None => (Some (ErrSys ENOENT), w)
        end
    end.

Definition children (dir : string) (fs : gmap string node) : list (string * node) :=
  filter (λ e, filepath.Dir e.1 = dir ∧ e.1 ≠ dir) (map_to_list fs).

Definition ReadDir (path : string) (w : host) : res (list FileInfo) :=
  match files w !! path with
  | Some n =>
      if node_dir n
      then Ok ((λ e, mkFileInfo (Base e.1) (node_dir e.2)) <$> children path (files w))
      else Err (ErrSys ENOTDIR)
  | None => Err (ErrSys ENOENT)
  end.

(** The text of [s] after [prefix], when [s] starts with it. *)
Fixpoint strip_prefix (prefix s : string) : option string :=
  match prefix, s with
  | EmptyString, _ => Some s
  | String a p', String b s' => if Ascii.eqb a b then strip_prefix p' s' else None
  | _, EmptyString => None
  end.

(** Everything below [src] is copied to the same place below [dst]. *)
Definition CopyWithTar (src dst : string) (w : host) : option error * host :=
  if read_only w then (Some (ErrSys EROFS), w)
  else
    match files w !! src with
    | None => (Some (ErrSys ENOENT), w)
    | Some _ =>
        (None,
         with_files w
           (foldr (λ e fs,
                     match strip_prefix (src +:+ "/") e.1 with
                     | Some rest => <[dst +:+ "/" +:+ rest := e.2]> fs
                     | None => fs
                     end)
                  (files w) (map_to_list (files w))))
    end.

Definition SyscallStat (path : string) (w : host) : res Stat_t :=
  match files w !! path with
  | Some n => Ok (mkStat_t (node_uid n) (node_gid n) (node_mode n))
  | None => Err (ErrSys ENOENT)
  end.

Definition Chown (path : string) (uid gid : Z) (w : host) : option error * host :=
  if read_only w then (Some (ErrSys EROFS), w)
  else
    match files w !! path with
    | Some n =>
        (None, with_files w (<[path := mkNode (node_dir n) uid gid (node_mode n)]> (files w)))
    | None => (Some (ErrSys ENOENT), w)
    end.

(** Only the permission bits of [mode] are applied. *)
Definition Chmod (path : string) (mode : Z) (w : host) : option error * host :=
  if read_only w then (Some (ErrSys EROFS), w)
  else
    match files w !! path with
    | Some n =>
        (None,
         with_files w
           (<[path := mkNode (node_dir n) (node_uid n) (node_gid n)
                        ((if node_dir n then S_IFDIR else S_IFREG) + Z.land mode 511)]>
              (files w)))
    | None => (Some (ErrSys ENOENT), w)
    end.

Definition EvalSymlinks (path : string) (w : host) : res string :=
  match files w !! filepath.Clean path with
  | Some _ => Ok (filepath.Clean path)
  | None => Err (ErrSys ENOENT)
  end.

Definition FollowSymlinkInScope (link root : string) (w : host) : res string :=
  match strip_prefix root link with
  | Some _ => Ok (filepath.Clean link)
  | None => Err (ErrOther "not within root")
  end.

Definition volume_root : string := "/var/lib/docker/vfs/dir".

Fixpoint volume_id (n : nat) : string :=
  match n with
  | O => "v"
  | S n' => volume_id n' +:+ "i"
  end.

Definition Create (w : host) : res string * host :=
  let id := volume_id (next_volume w) in
  match MkdirAll (volume_root +:+ "/" +:+ id) 493 w with
  | (Some err, w') => (Err err, w')
  | (None, w') => (Ok id, mkHost (files w') (read_only w') (S (next_volume w')))
  end.

Definition Get (id : string) (w : host) : (string * option error) * host :=
  match files w !! (volume_root +:+ "/" +:+ id) with
  | Some _ => ((volume_root +:+ "/" +:+ id, None), w)
  | None => (("", Some (ErrSys ENOENT)), w)
  end.

(** Modelled from the spec: [Container.GetVolumes] (container.go), which the
    spec describes as retrieving the container's already-resolved volume
    set. *)
Definition GetVolumes (c : Container) : res (gmap string Volume) :=
  Ok (map_imap (λ path hostPath,
                  Some (mkVolume hostPath path (index_bool (VolumesRW c) path) false))
        (Volumes c)).

Definition env (registry : gmap string Container) : Env host := {|
  host_Stat := Stat;
  host_MkdirAll := MkdirAll;
  host_OpenFile := OpenFile;
  host_ReadDir := ReadDir;
  host_CopyWithTar := CopyWithTar;
  host_SyscallStat := SyscallStat;
  host_Chown := Chown;
  host_Chmod := Chmod;
  host_EvalSymlinks := EvalSymlinks;
  host_FollowSymlinkInScope := FollowSymlinkInScope;
  graph_Create := Create;
  driver_Get := Get;
  daemon_Get := λ name, registry !! name;
  container_GetVolumes := GetVolumes;
  range_map := λ V m, map_to_list m;
  range_map_perm := λ V m, reflexivity _;
  range_set := elements;
  range_set_perm := λ s, reflexivity _;
|}.


Definition dir (uid gid perm : Z) : node := mkNode true uid gid (S_IFDIR + perm).
Definition file (uid gid perm : Z) : node := mkNode false uid gid (S_IFREG + perm).

End TestHost.

(** ** Vocabulary of the statements *)

(** The volume as [initialize] leaves it when it skips: only the container
    path has been cleaned. *)
Definition cleaned (v : Volume) : Volume :=
  mkVolume (HostPath v) (filepath.Clean (VolPath v)) (isReadWrite v) (isBindMount v).

(** The container and the error that a run of [initialize] returns. *)
Definition container_of {W} (r : Volume * Container * option error * W * list event)
    : Container := r.1.1.1.2.
Definition error_of {W} (r : Volume * Container * option error * W * list event)
    : option error := r.1.1.2.

(** The error a call answered with, when it failed. *)
Definition failure (ev : event) : option error :=
  match ev with
  | EvStat _ (Err e) | EvReadDir _ (Err e) | EvSyscallStat _ (Err e)
  | EvEvalSymlinks _ (Err e) | EvFollowSymlinkInScope _ _ (Err e)
  | EvVolumesCreate (Err e) => Some e
  | EvMkdirAll _ _ r | EvOpenFile _ _ _ r | EvCopyWithTar _ _ r
  | EvChown _ _ _ r | EvChmod _ _ r => r
  | EvDriverGet _ r => r.2
  | _ => None
  end.

(** The steps a call belongs to. *)
Inductive step := Allocating | Resolving | Probing | Creating | Seeding.

Definition step_of (ev : event) : step :=
  match ev with
  | EvVolumesCreate _ | EvDriverGet _ _ => Allocating
  | EvEvalSymlinks _ _ | EvFollowSymlinkInScope _ _ _ => Resolving
  | EvStat _ _ => Probing
  | EvMkdirAll _ _ _ | EvOpenFile _ _ _ _ => Creating
  | _ => Seeding
  end.

(** The calls that follow the recording of a volume whose host path is
    [path]: the stat of [path], the creation of the mount point, and the
    seeding (listing, copying, propagation of owner and mode). *)
Definition later_step (path : string) (ev : event) : bool :=
  match ev with
  | EvStat p _ => bool_decide (p = path)
  | _ => match step_of ev with
         | Creating | Seeding => true
         | _ => false
         end
  end.

(** Among [calls], one of the steps that follow the recording failed with
    [err]. *)
Definition later_step_fails (path : string) (calls : list event) (err : error) : Prop :=
  ∃ ev, In ev calls ∧ later_step path ev = true ∧ failure ev = Some err.

(** In [calls], [path] is the mount point inside the container (what
    [FollowSymlinkInScope] answered), respectively the backing storage on the
    host (what [EvalSymlinks] answered). *)
Definition mount_point_in (calls : list event) (path : string) : Prop :=
  ∃ link root, In (EvFollowSymlinkInScope link root (Ok path)) calls.
Definition backing_storage_in (calls : list event) (path : string) : Prop :=
  ∃ p, In (EvEvalSymlinks p (Ok path)) calls.

Section outcomes.
Context {W : Type} `{Env W}.

(** The third step of [initialize]: a host path for a managed volume that
    has none. *)
Definition allocation (v : Volume) (container : Container) : M W (string * option error) :=
  if negb (isBindMount v) && bool_decide (HostPath v = "")
  then createVolumeHostPath container
  else ret (HostPath v, None).

(** The container after [initialize] has recorded a volume. *)
Definition recorded (container : Container) (volPath hostPath : string) (rw : bool)
    : Container :=
  set_VolumesRW
    (set_Volumes container (<[volPath := hostPath]> (Volumes container)))
    (<[volPath := rw]> (VolumesRW container)).

(** The ways a run of [copyOwnership] can go. *)
Inductive ownership_outcome (source destination : string) (w : W)
    : option error * W * list event → Prop :=
  | own_stat_failed err :
      host_SyscallStat source w = Err err →
      ownership_outcome source destination w
        (Some err, w, [EvSyscallStat source (Err err)])
  | own_chown_failed stat err w1 :
      host_SyscallStat source w = Ok stat →
      host_Chown destination (Uid stat) (Gid stat) w = (Some err, w1) →
      ownership_outcome source destination w
        (Some err, w1,
         [EvSyscallStat source (Ok stat);
          EvChown destination (Uid stat) (Gid stat) (Some err)])
  | own_chmod stat w1 r w2 :
      host_SyscallStat source w = Ok stat →
      host_Chown destination (Uid stat) (Gid stat) w = (None, w1) →
      host_Chmod destination (Mode stat) w1 = (r, w2) →
      ownership_outcome source destination w
        (r, w2,
         [EvSyscallStat source (Ok stat);
          EvChown destination (Uid stat) (Gid stat) None;
          EvChmod destination (Mode stat) r]).

(** The ways a run of [copyExistingContents] can go. *)
Inductive seeding_outcome (source destination : string) (w : W)
    : option error * W * list event → Prop :=
  | seed_unreadable err :
      host_ReadDir source w = Err err →
      seeding_outcome source destination w
        (Some err, w, [EvReadDir source (Err err)])
  | seed_nothing_to_copy r w2 t :
      host_ReadDir source w = Ok [] →
      ownership_outcome source destination w (r, w2, t) →
      seeding_outcome source destination w
        (r, w2, EvReadDir source (Ok []) :: t)
  | seed_destination_unreadable volList err :
      host_ReadDir source w = Ok volList → volList ≠ [] →
      host_ReadDir destination w = Err err →
      seeding_outcome source destination w
        (Some err, w,
         [EvReadDir source (Ok volList); EvReadDir destination (Err err)])
  | seed_destination_not_empty volList srcList r w2 t :
      host_ReadDir source w = Ok volList → volList ≠ [] →
      host_ReadDir destination w = Ok srcList → srcList ≠ [] →
      ownership_outcome source destination w (r, w2, t) →
      seeding_outcome source destination w
        (r, w2,
         EvReadDir source (Ok volList) :: EvReadDir destination (Ok srcList) :: t)
  | seed_copy_failed volList err w1 :
      host_ReadDir source w = Ok volList → volList ≠ [] →
      host_ReadDir destination w = Ok [] →
      host_CopyWithTar source destination w = (Some err, w1) →
      seeding_outcome source destination w
        (Some err, w1,
         [EvReadDir source (Ok volList); EvReadDir destination (Ok []);
          EvCopyWithTar source destination (Some err)])
  | seed_copied volList w1 r w2 t :
      host_ReadDir source w = Ok volList → volList ≠ [] →
      host_ReadDir destination w = Ok [] →
      host_CopyWithTar source destination w = (None, w1) →
      ownership_outcome source destination w1 (r, w2, t) →
      seeding_outcome source destination w
        (r, w2,
         EvReadDir source (Ok volList) :: EvReadDir destination (Ok [])
           :: EvCopyWithTar source destination None :: t).

(** What follows the recording: the stat of the host path, the creation of
    the mount point, and the seeding of a read-write managed volume. *)
Inductive after_recording (v1 : Volume) (hostPath fullVolPath : string) (w1 : W)
    : option error * W * list event → Prop :=
  | after_stat_failed err :
      host_Stat (HostPath v1) w1 = Err err →
      after_recording v1 hostPath fullVolPath w1
        (Some err, w1, [EvStat (HostPath v1) (Err err)])
  | after_create_failed stat err w2 t2 :
      host_Stat (HostPath v1) w1 = Ok stat →
      createIfNotExists fullVolPath (IsDir stat) w1 = (Some err, w2, t2) →
      after_recording v1 hostPath fullVolPath w1
        (Some err, w2, EvStat (HostPath v1) (Ok stat) :: t2)
  | after_not_seeded stat w2 t2 :
      host_Stat (HostPath v1) w1 = Ok stat →
      createIfNotExists fullVolPath (IsDir stat) w1 = (None, w2, t2) →
      isReadWrite v1 && negb (isBindMount v1) = false →
      after_recording v1 hostPath fullVolPath w1
        (None, w2, EvStat (HostPath v1) (Ok stat) :: t2)
  | after_seeded stat w2 t2 err w3 t3 :
      host_Stat (HostPath v1) w1 = Ok stat →
      createIfNotExists fullVolPath (IsDir stat) w1 = (None, w2, t2) →
      isReadWrite v1 && negb (isBindMount v1) = true →
      seeding_outcome fullVolPath hostPath w2 (err, w3, t3) →
      after_recording v1 hostPath fullVolPath w1
        (err, w3, EvStat (HostPath v1) (Ok stat) :: t2 ++ t3).

(** The ways a run of [initialize] can go, one for each place where it
    returns. *)
Inductive initialize_outcome (v : Volume) (container : Container) (w : W)
    : Volume * Container * option error * W * list event → Prop :=
  | outcome_present :
      is_Some (Volumes container !! filepath.Clean (VolPath v)) →
      initialize_outcome v container w ((cleaned v, container, None), w, [])
  | outcome_not_allocated hp err w1 t0 :
      Volumes container !! filepath.Clean (VolPath v) = None →
      allocation v container w = ((hp, Some err), w1, t0) →
      initialize_outcome v container w
        ((mkVolume hp (filepath.Clean (VolPath v)) (isReadWrite v) (isBindMount v),
          container, Some err), w1, t0)
  | outcome_not_resolved hp w1 t0 err calls :
      Volumes container !! filepath.Clean (VolPath v) = None →
      allocation v container w = ((hp, None), w1, t0) →
      host_EvalSymlinks hp w1 = Err err →
      calls = t0 ++ [EvEvalSymlinks hp (Err err)] →
      initialize_outcome v container w
        ((mkVolume hp (filepath.Clean (VolPath v)) (isReadWrite v) (isBindMount v),
          container, Some err), w1, calls)
  | outcome_not_in_scope hp w1 t0 hostPath err calls :
      Volumes container !! filepath.Clean (VolPath v) = None →
      allocation v container w = ((hp, None), w1, t0) →
      host_EvalSymlinks hp w1 = Ok hostPath →
      host_FollowSymlinkInScope
        (filepath.Join [basefs container; filepath.Clean (VolPath v)])
        (basefs container) w1 = Err err →
      calls = t0 ++ [EvEvalSymlinks hp (Ok hostPath);
                     EvFollowSymlinkInScope
                       (filepath.Join [basefs container; filepath.Clean (VolPath v)])
                       (basefs container) (Err err)] →
      initialize_outcome v container w
        ((mkVolume hp (filepath.Clean (VolPath v)) (isReadWrite v) (isBindMount v),
          container, Some err), w1, calls)
  | outcome_recorded hp w1 t0 hostPath fullVolPath err w2 t1 calls :
      Volumes container !! filepath.Clean (VolPath v) = None →
      allocation v container w = ((hp, None), w1, t0) →
      host_EvalSymlinks hp w1 = Ok hostPath →
      host_FollowSymlinkInScope
        (filepath.Join [basefs container; filepath.Clean (VolPath v)])
        (basefs container) w1 = Ok fullVolPath →
      after_recording
        (mkVolume hp (filepath.Clean (VolPath v)) (isReadWrite v) (isBindMount v))
        hostPath fullVolPath w1 (err, w2, t1) →
      calls = t0 ++ [EvEvalSymlinks hp (Ok hostPath);
                     EvFollowSymlinkInScope
                       (filepath.Join [basefs container; filepath.Clean (VolPath v)])
                       (basefs container) (Ok fullVolPath)] ++ t1 →
      initialize_outcome v container w
        ((mkVolume hp (filepath.Clean (VolPath v)) (isReadWrite v) (isBindMount v),
          recorded container (filepath.Clean (VolPath v)) hostPath (isReadWrite v),
          err), w2, calls).

End outcomes.

(** ** Inputs for the examples *)

Definition source_container : Container :=
  mkContainer {["/data" := "/vol/123"]} {["/data" := true]} "" "" "" "/src" ∅ [] [].

Definition source_volumes : gmap string Volume :=
  map_imap (λ path hostPath,
              Some (mkVolume hostPath path
                      (index_bool (VolumesRW source_container) path) false))
    (Volumes source_container).

Definition nested_container : Container :=
  mkContainer
    (<["/ab" := "/vol/3"]> (<["/a/b" := "/vol/2"]> (<["/a" := "/vol/1"]> ∅)))
    (<["/ab" := true]> (<["/a/b" := false]> (<["/a" := true]> ∅)))
    "/c/resolv.conf" "" "/c/hosts" "/rootfs" ∅ [] [].

(** A host where the image has content at [/rootfs/data] and two volumes
    exist, one of them with content. *)
Definition seeded_host : TestHost.host :=
  TestHost.mkHost
    (list_to_map
       [("/", TestHost.dir 0 0 493);
        ("/rootfs", TestHost.dir 0 0 493);
        ("/rootfs/data", TestHost.dir 5 6 448);
        ("/rootfs/data/f", TestHost.file 5 6 420);
        ("/rootfs/empty", TestHost.dir 7 8 493);
        ("/vol", TestHost.dir 0 0 493);
        ("/vol/1", TestHost.dir 0 0 493);
        ("/vol/2", TestHost.dir 1 2 488);
        ("/vol/2/g", TestHost.file 1 2 420)])
    false 0.

Definition plain_container : Container :=
  mkContainer ∅ ∅ "/c/resolv.conf" "" "" "/rootfs" ∅ [] [].

(** The same host, mounted read-only. *)
Definition read_only_host : TestHost.host :=
  TestHost.mkHost (TestHost.files seeded_host) true 0.

(** A managed read-write volume whose backing storage is empty, for a mount
    point that has content in the image. *)
Definition empty_volume : Volume := mkVolume "/vol/1" "/data/" true false.


(** A managed read-write volume for a mount point that does not exist yet. *)
Definition new_volume : Volume := mkVolume "/vol/1" "/newvol" true false.

(** A container that already has a volume at [/data]. *)
Definition container_with_data : Container :=
  mkContainer {["/data" := "/vol/2"]} {["/data" := false]}
    "/c/resolv.conf" "" "" "/rootfs" ∅ [] [].

(** A container with a volume at [/data] whose image declares volumes at
    [/data] and at [/newvol]. *)
Definition container_with_image_volumes : Container :=
  mkContainer {["/data" := "/vol/2"]} {["/data" := false]}
    "/c/resolv.conf" "" "" "/rootfs" {["/data"; "/newvol"]} [] [].

Definition image_volumes : gmap string Volume :=
  map_imap (λ path hostPath,
              Some (mkVolume hostPath path
                      (index_bool (VolumesRW container_with_image_volumes) path) false))
    (Volumes container_with_image_volumes).

(** A managed read-write volume whose host path is a regular file. *)
Definition file_volume : Volume := mkVolume "/vol/2/g" "/cfg" true false.

(** A read-write bind mount of a host directory that has content. *)
Definition bind_volume : Volume := mkVolume "/vol/2" "/data" true true.

(** A bind mount of a host path that does not exist. *)
Definition missing_volume : Volume := mkVolume "/nowhere" "/data" true true.

(** A managed read-write volume that has no host path yet. *)
Definition fresh_volume : Volume := mkVolume "" "/data" true false.

(** A container without volumes that inherits those of the container
    registered as [donor], and whose image declares a volume at [/newvol]. *)
Definition inheriting_container : Container :=
  mkContainer ∅ ∅ "/c/resolv.conf" "" "" "/rootfs" {["/newvol"]} ["donor"] [].

(** A container with a volume at [/data] that inherits from [donor]. *)
Definition inheriting_container_with_data : Container :=
  mkContainer {["/data" := "/vol/1"]} {["/data" := true]}
    "/c/resolv.conf" "" "" "/rootfs" ∅ ["donor"] [].

(** A container whose first volumes-from spec names an unknown container. *)
Definition orphan_container : Container :=
  mkContainer ∅ ∅ "/c/resolv.conf" "" "" "/rootfs" {["/newvol"]} ["ghost:ro"; "donor"] [].

(** The registry of a daemon that knows one container, [donor]. *)
Definition donor_registry : gmap string Container := {["donor" := container_with_data]}.



(** * Properties *)

(** ** The library functions on examples *)

Example Split_examples :
  strings.Split "/host/data:/data:ro" ":" = ["/host/data"; "/data"; "ro"]
  ∧ strings.Split "" ":" = [""]
  ∧ strings.Split "a::b" ":" = ["a"; ""; "b"]
  ∧ strings.SplitN "a:b:c" ":" 2 = ["a"; "b:c"]
  ∧ strings.SplitN "abc" ":" 2 = ["abc"].
Proof. repeat split. Qed.

Example Clean_examples :
  map filepath.Clean
    [""; "/"; "/data/"; "a//b/./c/.."; "/../a"; "a/../.."; "/a/b/../../.."]
  = ["."; "/"; "/data"; "a/b"; "/a"; ".."; "/"].
Proof. by vm_compute. Qed.

Example Join_examples :
  map filepath.Join [["/rootfs"; "/data"]; [""; "x"]; ["/"; ".."]; [""; ""]]
  = ["/rootfs/data"; "x"; "/"; ""].
Proof. by vm_compute. Qed.

Example Dir_examples :
  map filepath.Dir ["/a/b"; "/a"; "a"; "/a/b/"; ""] = ["/a"; "/"; "."; "/a/b"; "."].
Proof. by vm_compute. Qed.

(** ** Splitting at a colon *)

Lemma append_cons (a : ascii) (s t : string) : String a s +:+ t = String a (s +:+ t).
Proof. reflexivity. Qed.

Lemma Count_append (s t : string) (sep : ascii) :
  strings.Count (s +:+ t) sep = (strings.Count s sep + strings.Count t sep)%nat.
Proof.
  induction s as [|a s IH]; [reflexivity|].
  rewrite append_cons. simpl. rewrite IH. lia.
Qed.

Lemma Cut_without_sep (s : string) (sep : ascii) :
  strings.Count s sep = 0%nat → strings.Cut s sep = None.
Proof.
  induction s as [|a s IH]; simpl; [done|].
  destruct (Ascii.eqb a sep); [done|].
  intros Hc. by rewrite IH.
Qed.

Lemma Cut_at_first_sep (s rest : string) (sep : ascii) :
  strings.Count s sep = 0%nat →
  strings.Cut (s +:+ String sep rest) sep = Some (s, rest).
Proof.
  induction s as [|a s IH].
  - intros _. change ("" +:+ String sep rest) with (String sep rest). simpl.
    by rewrite Ascii.eqb_refl.
  - rewrite append_cons. simpl. destruct (Ascii.eqb a sep); [done|].
    intros Hc. by rewrite IH.
Qed.

Lemma Split_one_field (s : string) :
  strings.Count s ":" = 0%nat → strings.Split s ":" = [s].
Proof. intros Hc. unfold strings.Split. by rewrite Hc. Qed.

Lemma Split_three_fields (h c m : string) :
  strings.Count h ":" = 0%nat → strings.Count c ":" = 0%nat →
  strings.Count m ":" = 0%nat →
  strings.Split (h +:+ ":" +:+ c +:+ ":" +:+ m) ":" = [h; c; m].
Proof.
  intros Hh Hc Hm. unfold strings.Split.
  change (h +:+ ":" +:+ c +:+ ":" +:+ m) with (h +:+ String ":" (c +:+ String ":" m)).
  rewrite Count_append. simpl. rewrite Count_append. simpl. rewrite Hh, Hc, Hm. simpl.
  rewrite Cut_at_first_sep by done. rewrite Cut_at_first_sep by done. done.
Qed.

Lemma SplitN_two_fields (id mode : string) :
  strings.Count id ":" = 0%nat →
  strings.SplitN (id +:+ ":" +:+ mode) ":" 2 = [id; mode].
Proof.
  intros Hc. change (id +:+ ":" +:+ mode) with (id +:+ String ":" mode).
  simpl. by rewrite Cut_at_first_sep.
Qed.

Lemma validVolumeMode_true (mode : string) :
  validVolumeMode mode = true ↔ mode = "ro" ∨ mode = "rw".
Proof.
  unfold validVolumeMode, index_bool.
  destruct (decide (mode = "rw")) as [->|Hrw].
  { rewrite lookup_insert_eq. simpl. split; auto. }
  rewrite lookup_insert_ne by done.
  destruct (decide (mode = "ro")) as [->|Hro].
  { rewrite lookup_insert_eq. simpl. split; auto. }
  rewrite lookup_insert_ne by done. rewrite lookup_empty. simpl.
  split; [done|]. by intros [?|?].
Qed.

Lemma validVolumeMode_false (mode : string) :
  validVolumeMode mode = false ↔ mode ≠ "ro" ∧ mode ≠ "rw".
Proof.
  destruct (validVolumeMode mode) eqn:E.
  - apply validVolumeMode_true in E. split; [done|]. intros [? ?]. by destruct E.
  - split; [|done]. intros _. split; intros ->; by vm_compute in E.
Qed.

(** ** The parsers *)

Lemma mode_is_rw (mode : string) :
  validVolumeMode mode && bool_decide (mode = "rw") = bool_decide (mode = "rw").
Proof.
  case_bool_decide as Hrw; [|by rewrite andb_false_r].
  subst mode. reflexivity.
Qed.

(** C1 (what the code does): for a volumes-from spec [id:mode] whose
    container resolves and whose volumes can be read, [parseVolumesFromSpec]
    returns the invalid-mode error exactly for the modes [ro] and [rw], and
    for every other mode it succeeds, marking every inherited volume
    read-write.  The test of [validVolumeMode] is inverted. *)
Theorem parseVolumesFromSpec_mode_inverted `{Env W}
    (container c : Container) (id mode : string) (volumes : gmap string Volume) :
  strings.Count id ":" = 0%nat →
  daemon_Get id = Some c →
  container_GetVolumes c = Ok volumes →
  (mode = "ro" ∨ mode = "rw" →
     parseVolumesFromSpec container (id +:+ ":" +:+ mode) = Err (ErrInvalidMode mode)) ∧
  (mode ≠ "ro" → mode ≠ "rw" →
     parseVolumesFromSpec container (id +:+ ":" +:+ mode)
     = Ok ((λ v, mkVolume (HostPath v) (VolPath v) true (isBindMount v)) <$> volumes)).
Proof.
  intros Hid Hget Hvols. unfold parseVolumesFromSpec.
  rewrite SplitN_two_fields by done. simpl. rewrite Hget, Hvols.
  split.
  - intros Hmode. apply validVolumeMode_true in Hmode. by rewrite Hmode.
  - intros Hro Hrw.
    assert (validVolumeMode mode = false) as -> by by apply validVolumeMode_false.
    by rewrite bool_decide_eq_true_2.
Qed.

(** C2 (amended): a bind spec [hostPath:containerPath:mode] with an absolute
    host path always parses without error, with [readWrite = (mode == "rw")];
    a mode that is neither [ro] nor [rw] gives a read-only volume. *)
Theorem parseBindVolumeSpec_three_fields (hostPath containerPath mode : string) :
  strings.Count hostPath ":" = 0%nat →
  strings.Count containerPath ":" = 0%nat →
  strings.Count mode ":" = 0%nat →
  filepath.IsAbs hostPath = true →
  parseBindVolumeSpec (hostPath +:+ ":" +:+ containerPath +:+ ":" +:+ mode)
  = (mkVolume hostPath containerPath (bool_decide (mode = "rw")) false, None).
Proof.
  intros Hh Hc Hm Habs. unfold parseBindVolumeSpec.
  rewrite Split_three_fields by done. simpl. rewrite Habs. simpl.
  by rewrite mode_is_rw.
Qed.

(** C3 (what the code does): a bind spec without a colon is always rejected
    by the absolute-path check, because the host path it leaves empty is not
    absolute; the volume returned next to the error has the container path
    and [readWrite = true]. *)
Theorem parseBindVolumeSpec_one_field_rejected (spec : string) :
  strings.Count spec ":" = 0%nat →
  parseBindVolumeSpec spec = (mkVolume "" spec true false, Some (ErrNotAbsolute "")).
Proof.
  intros Hc. unfold parseBindVolumeSpec. by rewrite Split_one_field.
Qed.

Lemma parseVolumesFromSpec_mode_inverted_witness :
  parseVolumesFromSpec (H := TestHost.env {["containerX" := source_container]})
    source_container "containerX:ro" = Err (ErrInvalidMode "ro")
  ∧ parseVolumesFromSpec (H := TestHost.env {["containerX" := source_container]})
      source_container "containerX:bogus"
    = Ok ((λ v, mkVolume (HostPath v) (VolPath v) true (isBindMount v)) <$> source_volumes).
Proof.
  split.
  - exact (proj1 (parseVolumesFromSpec_mode_inverted
                    (H := TestHost.env {["containerX" := source_container]})
                    source_container source_container "containerX" "ro" source_volumes
                    eq_refl eq_refl eq_refl) (or_introl eq_refl)).
  - refine (proj2 (parseVolumesFromSpec_mode_inverted
                    (H := TestHost.env {["containerX" := source_container]})
                    source_container source_container "containerX" "bogus" source_volumes
                    eq_refl eq_refl eq_refl) _ _); discriminate.
Defined.

Lemma parseBindVolumeSpec_three_fields_witness :
  parseBindVolumeSpec "/host/data:/data:ro" = (mkVolume "/host/data" "/data" false false, None)
  ∧ parseBindVolumeSpec "/host/data:/data:rw" = (mkVolume "/host/data" "/data" true false, None).
Proof.
  split.
  - exact (parseBindVolumeSpec_three_fields "/host/data" "/data" "ro"
             eq_refl eq_refl eq_refl eq_refl).
  - exact (parseBindVolumeSpec_three_fields "/host/data" "/data" "rw"
             eq_refl eq_refl eq_refl eq_refl).
Defined.

(** C2 (as stated, refuted): a third field that is neither [ro] nor [rw] is
    accepted. *)
Lemma parseBindVolumeSpec_accepts_unknown_mode :
  parseBindVolumeSpec "/host/data:/data:bogus"
  = (mkVolume "/host/data" "/data" false false, None).
Proof. vm_compute. reflexivity. Qed.

Lemma parseBindVolumeSpec_one_field_rejected_witness :
  parseBindVolumeSpec "/data" = (mkVolume "" "/data" true false, Some (ErrNotAbsolute "")).
Proof. exact (parseBindVolumeSpec_one_field_rejected "/data" eq_refl). Defined.

(** ** The mount list *)

Lemma foldl_append_one {A B} (f : B → A) (init : list A) (l : list B) :
  foldl (λ acc x, acc ++ [f x]) init l = init ++ map f l.
Proof.
  revert init. induction l as [|x l IH]; intros init; simpl.
  - by rewrite app_nil_r.
  - rewrite IH. by rewrite <- app_assoc.
Qed.

Lemma sortedVolumeMounts_sorted `{Env W} (container : Container) :
  StronglySorted String.le (sortedVolumeMounts container).
Proof. apply StronglySorted_merge_sort; apply _. Qed.

Lemma sortedVolumeMounts_keys `{Env W} (container : Container) :
  sortedVolumeMounts container ≡ₚ (map_to_list (Volumes container)).*1.
Proof.
  unfold sortedVolumeMounts, sort.Strings.
  rewrite merge_sort_Permutation. by rewrite range_map_perm.
Qed.

(** The result does not depend on the order in which the map is visited:
    it is the one sorted enumeration of the keys. *)
Lemma sortedVolumeMounts_unique `{Env W} (container : Container) (paths : list string) :
  StronglySorted String.le paths →
  paths ≡ₚ (map_to_list (Volumes container)).*1 →
  sortedVolumeMounts container = paths.
Proof.
  intros Hs Hp. apply (StronglySorted_unique String.le).
  - apply sortedVolumeMounts_sorted.
  - done.
  - by rewrite sortedVolumeMounts_keys.
Qed.

Lemma keys_of_dom (m : gmap string string) (paths : list string) :
  NoDup paths → (∀ p, p ∈ paths ↔ p ∈ dom m) → paths ≡ₚ (map_to_list m).*1.
Proof.
  intros Hnd Hin. apply NoDup_Permutation; [done|apply NoDup_fst_map_to_list|].
  intros p. rewrite Hin, elem_of_dom. rewrite list_elem_of_fmap. split.
  - intros [h Hh]. exists (p, h). split; [done|]. by apply elem_of_map_to_list.
  - intros [[p' h] [-> Hh]]. exists h. by apply elem_of_map_to_list.
Qed.

(** C6: the mount list starts with resolv.conf, then hostname and hosts when
    they are configured, and continues with one mount for each key of the
    volume set, in ascending byte order of the container path; volumes at
    [/a], [/a/b] and [/ab] come in that order. *)
Theorem setupMountsForContainer_order `{Env W} (container : Container) :
  let r := setupMountsForContainer container in
  r.2 = None ∧
  StronglySorted String.le (sortedVolumeMounts container) ∧
  sortedVolumeMounts container ≡ₚ (map_to_list (Volumes container)).*1 ∧
  command_Mounts r.1
  = [mkMount (ResolvConfPath container) "/etc/resolv.conf" true false true]
    ++ (if decide (HostnamePath container = "") then []
        else [mkMount (HostnamePath container) "/etc/hostname" true true false])
    ++ (if decide (HostsPath container = "") then []
        else [mkMount (HostsPath container) "/etc/hosts" true false true])
    ++ map (λ path, mkMount (index_string (Volumes container) path) path
                      (index_bool (VolumesRW container) path) false false)
         (sortedVolumeMounts container) ∧
  (dom (Volumes container) = {["/a"; "/a/b"; "/ab"]} →
   sortedVolumeMounts container = ["/a"; "/a/b"; "/ab"]).
Proof.
  simpl. split; [done|].
  split; [apply sortedVolumeMounts_sorted|].
  split; [apply sortedVolumeMounts_keys|].
  split.
  - unfold setupMountsForContainer. cbn [fst command_Mounts set_Mounts].
    rewrite foldl_append_one.
    destruct (decide (HostnamePath container = "")) as [Hn|Hn];
      destruct (decide (HostsPath container = "")) as [Hh|Hh];
      rewrite ?(bool_decide_eq_false_2 (HostnamePath container ≠ "")) by auto;
      rewrite ?(bool_decide_eq_true_2 (HostnamePath container ≠ "")) by auto;
      rewrite ?(bool_decide_eq_false_2 (HostsPath container ≠ "")) by auto;
      rewrite ?(bool_decide_eq_true_2 (HostsPath container ≠ "")) by auto;
      reflexivity.
  - intros Hdom. apply sortedVolumeMounts_unique.
    + repeat constructor; by vm_compute.
    + apply keys_of_dom.
      * repeat constructor; rewrite ?elem_of_cons, ?elem_of_nil; intuition discriminate.
      * intros p. rewrite Hdom, !elem_of_cons, elem_of_nil, !elem_of_union,
          !elem_of_singleton. tauto.
Qed.

Lemma setupMountsForContainer_order_witness :
  command_Mounts (setupMountsForContainer (H := TestHost.env ∅) nested_container).1
  = [mkMount "/c/resolv.conf" "/etc/resolv.conf" true false true;
     mkMount "/c/hosts" "/etc/hosts" true false true;
     mkMount "/vol/1" "/a" true false false;
     mkMount "/vol/2" "/a/b" false false false;
     mkMount "/vol/3" "/ab" true false false].
Proof.
  destruct (setupMountsForContainer_order (H := TestHost.env ∅) nested_container)
    as (_ & _ & _ & Hmounts & Hpaths).
  rewrite Hmounts, Hpaths; [reflexivity|].
  unfold nested_container. simpl. rewrite !dom_insert_L, dom_empty_L. set_solver.
Defined.

(** ** Runs of the effectful functions *)

Ltac unfold_calls :=
  unfold os.Stat, os.MkdirAll, os.OpenFile, os.Chown, os.Chmod, ioutil.ReadDir,
    archive.CopyWithTar, syscall.Stat, symlink.FollowSymlinkInScope,
    filepath.EvalSymlinks, bind, ret in *.

(** C10: [createIfNotExists] creates the mount point only when [os.Stat]
    fails with a not-exist error; when the stat succeeds, or fails with any
    other error, it returns [nil], leaves the host as it is, makes no other
    call, and the stat error is not returned. *)
Theorem createIfNotExists_only_when_missing `{Env W}
    (destination : string) (isDir : bool) (w : W) :
  (∀ fi, host_Stat destination w = Ok fi →
     createIfNotExists destination isDir w = (None, w, [EvStat destination (Ok fi)])) ∧
  (∀ err, host_Stat destination w = Err err → os.IsNotExist err = false →
     createIfNotExists destination isDir w = (None, w, [EvStat destination (Err err)])) ∧
  (∀ err, host_Stat destination w = Err err → os.IsNotExist err = true →
     createIfNotExists destination isDir w
     = if isDir then
         let '(r, w1) := host_MkdirAll destination 493 w in
         (r, w1, [EvStat destination (Err err); EvMkdirAll destination 493 r])
       else
         let '(r, w1) := host_MkdirAll (filepath.Dir destination) 493 w in
         match r with
         | Some e =>
             (Some e, w1,
              [EvStat destination (Err err);
               EvMkdirAll (filepath.Dir destination) 493 (Some e)])
         | None =>
             let '(r2, w2) := host_OpenFile destination os.O_CREATE 493 w1 in
             (r2, w2,
              [EvStat destination (Err err);
               EvMkdirAll (filepath.Dir destination) 493 None;
               EvOpenFile destination os.O_CREATE 493 r2])
         end).
Proof.
  unfold createIfNotExists. split; [|split].
  - intros fi Hst. unfold_calls. by rewrite Hst.
  - intros err Hst Hne. unfold_calls. rewrite Hst, Hne. done.
  - intros err Hst Hne. unfold_calls. rewrite Hst, Hne. simpl.
    destruct isDir.
    + by destruct (host_MkdirAll destination 493 w).
    + destruct (host_MkdirAll (filepath.Dir destination) 493 w) as [[e|] w1]; [done|].
      destruct (host_OpenFile destination os.O_CREATE 493 w1) as [[e|] w2]; done.
Qed.

Lemma createIfNotExists_only_when_missing_witness :
  createIfNotExists (H := TestHost.env ∅) "/rootfs/data" true seeded_host
  = (None, seeded_host,
     [EvStat "/rootfs/data" (Ok (mkFileInfo "data" true))])
  ∧ calls_of (createIfNotExists (H := TestHost.env ∅) "/rootfs/new/file" false seeded_host)
    = [EvStat "/rootfs/new/file" (Err (ErrSys ENOENT));
       EvMkdirAll "/rootfs/new" 493 None;
       EvOpenFile "/rootfs/new/file" os.O_CREATE 493 None].
Proof.
  destruct (createIfNotExists_only_when_missing (H := TestHost.env ∅)
              "/rootfs/data" true seeded_host) as (Hok & _ & _).
  destruct (createIfNotExists_only_when_missing (H := TestHost.env ∅)
              "/rootfs/new/file" false seeded_host) as (_ & _ & Hnew).
  split.
  - apply Hok. reflexivity.
  - rewrite (Hnew (ErrSys ENOENT)) by reflexivity. vm_compute. reflexivity.
Defined.

(** ** Initializing a volume *)

Lemma initialize_present `{Env W} (v : Volume) (container : Container) (w : W) :
  is_Some (Volumes container !! filepath.Clean (VolPath v)) →
  initialize v container w = ((cleaned v, container, None), w, []).
Proof.
  intros Hin. unfold initialize. simpl. by rewrite bool_decide_eq_true_2.
Qed.

Lemma isDir_run `{Env W} (v : Volume) (w : W) :
  isDir v w
  = (match host_Stat (HostPath v) w with
     | Ok stat => Ok (IsDir stat)
     | Err err => Err err
     end, w, [EvStat (HostPath v) (host_Stat (HostPath v) w)]).
Proof. unfold isDir. unfold_calls. by destruct (host_Stat (HostPath v) w). Qed.

Lemma copyOwnership_run `{Env W} (source destination : string) (w : W) :
  ownership_outcome source destination w (copyOwnership source destination w).
Proof.
  unfold copyOwnership. unfold_calls.
  destruct (host_SyscallStat source w) as [stat|err] eqn:Hstat;
    [|by apply own_stat_failed].
  destruct (host_Chown destination (Uid stat) (Gid stat) w) as [[err|] w1] eqn:Hchown;
    [by eapply own_chown_failed|].
  destruct (host_Chmod destination (Mode stat) w1) as [r w2] eqn:Hchmod.
  by eapply own_chmod.
Qed.

Lemma copyExistingContents_run `{Env W} (source destination : string) (w : W) :
  seeding_outcome source destination w (copyExistingContents source destination w).
Proof.
  unfold copyExistingContents. unfold bind at 1. unfold ioutil.ReadDir at 1.
  destruct (host_ReadDir source w) as [volList|err] eqn:Hsrc;
    [|by apply seed_unreadable].
  pose proof (copyOwnership_run source destination w) as Hown.
  destruct (copyOwnership source destination w) as [[r w2] t] eqn:Eown.
  case_bool_decide as Hlen.
  2: { assert (volList = []) as -> by (destruct volList; simpl in *; [done|lia]).
       rewrite Eown. by apply seed_nothing_to_copy. }
  assert (volList ≠ []) as Hne by (intros ->; simpl in *; lia).
  unfold bind at 1. unfold ioutil.ReadDir at 1.
  destruct (host_ReadDir destination w) as [srcList|err] eqn:Hdst;
    [|by eapply seed_destination_unreadable].
  case_bool_decide as Hlen2.
  2: { rewrite Eown. eapply seed_destination_not_empty; eauto.
       intros ->. done. }
  assert (srcList = []) as -> by (by destruct srcList).
  unfold bind at 1. unfold archive.CopyWithTar at 1.
  destruct (host_CopyWithTar source destination w) as [[err|] w1] eqn:Hcopy;
    [by eapply seed_copy_failed|].
  pose proof (copyOwnership_run source destination w1) as Hown1.
  destruct (copyOwnership source destination w1) as [[r1 w3] t1] eqn:Eown1.
  by eapply seed_copied.
Qed.

Lemma after_recording_run `{Env W} (v1 : Volume) (hostPath fullVolPath : string)
    (container : Container) (w1 : W) :
  ∃ err w2 t1,
    after_recording v1 hostPath fullVolPath w1 (err, w2, t1)
    ∧ bind (isDir v1) (λ r,
        match r with
        | Err err => ret (v1, container, Some err)
        | Ok volIsDir =>
            bind (createIfNotExists fullVolPath volIsDir) (λ err,
              match err with
              | Some err => ret (v1, container, Some err)
              | None =>
                  if isReadWrite v1 && negb (isBindMount v1) then
                    bind (copyExistingContents fullVolPath hostPath) (λ err,
                      ret (v1, container, err))
                  else ret (v1, container, None)
              end)
        end) w1
      = ((v1, container, err), w2, t1).
Proof.
  unfold bind at 1. rewrite isDir_run.
  destruct (host_Stat (HostPath v1) w1) as [stat|err] eqn:Hstat.
  - unfold bind at 1.
    destruct (createIfNotExists fullVolPath (IsDir stat) w1) as [[[err|] w2] t2] eqn:Hcreate.
    + eexists _, _, _. split; [by eapply after_create_failed|].
      unfold ret. simpl. by rewrite app_nil_r.
    + destruct (isReadWrite v1 && negb (isBindMount v1)) eqn:Hrw.
      * unfold bind.
        pose proof (copyExistingContents_run fullVolPath hostPath w2) as Hseed.
        destruct (copyExistingContents fullVolPath hostPath w2) as [[err w3] t3].
        eexists _, _, _. split; [by eapply after_seeded|].
        unfold ret. simpl. by rewrite app_nil_r.
      * eexists _, _, _. split; [by eapply after_not_seeded|].
        unfold ret. simpl. by rewrite app_nil_r.
  - eexists _, _, _. split; [by eapply after_stat_failed|]. done.
Qed.

Lemma allocation_step `{Env W} (v : Volume) (container : Container) (w : W) :
  (if negb (isBindMount v) && bool_decide (HostPath v = "")
   then bind (createVolumeHostPath container)
          (λ r, ret (mkVolume r.1 (filepath.Clean (VolPath v)) (isReadWrite v)
                       (isBindMount v), r.2))
   else ret (mkVolume (HostPath v) (filepath.Clean (VolPath v)) (isReadWrite v)
               (isBindMount v), None)) w
  = let '(r, w1, t0) := allocation v container w in
    ((mkVolume r.1 (filepath.Clean (VolPath v)) (isReadWrite v) (isBindMount v), r.2),
     w1, t0).
Proof.
  unfold allocation.
  destruct (negb (isBindMount v) && bool_decide (HostPath v = "")); [|done].
  unfold bind, ret.
  destruct (createVolumeHostPath container w) as [[r w1] t0].
  by rewrite app_nil_r.
Qed.

Lemma initialize_run `{Env W} (v : Volume) (container : Container) (w : W) :
  initialize_outcome v container w (initialize v container w).
Proof.
  unfold initialize. cbn [VolPath HostPath isReadWrite isBindMount].
  case_bool_decide as Hin.
  { apply outcome_present. done. }
  assert (Volumes container !! filepath.Clean (VolPath v) = None) as Hnew.
  { destruct (Volumes container !! filepath.Clean (VolPath v)) eqn:E; [|done].
    destruct Hin. eauto. }
  unfold bind at 1. rewrite allocation_step.
  destruct (allocation v container w) as [[[hp [err|]] w1] t0] eqn:Halloc;
    cbn [fst snd VolPath HostPath isReadWrite isBindMount].
  { unfold ret. rewrite app_nil_r. by eapply outcome_not_allocated. }
  unfold bind at 1. unfold filepath.EvalSymlinks at 1.
  destruct (host_EvalSymlinks hp w1) as [hostPath|err] eqn:Heval.
  2: { unfold ret. cbn. by eapply outcome_not_resolved. }
  unfold bind at 1. unfold symlink.FollowSymlinkInScope at 1.
  destruct (host_FollowSymlinkInScope
              (filepath.Join [basefs container; filepath.Clean (VolPath v)])
              (basefs container) w1) as [fullVolPath|err] eqn:Hfollow.
  2: { unfold ret. cbn. by eapply outcome_not_in_scope. }
  destruct (after_recording_run
              (mkVolume hp (filepath.Clean (VolPath v)) (isReadWrite v) (isBindMount v))
              hostPath fullVolPath
              (recorded container (filepath.Clean (VolPath v)) hostPath (isReadWrite v))
              w1) as (err & w2 & t1 & Hafter & Hrun).
  match goal with
  | |- context [bind (isDir ?a) ?k w1] =>
      replace (bind (isDir a) k w1) with
        ((mkVolume hp (filepath.Clean (VolPath v)) (isReadWrite v) (isBindMount v),
          recorded container (filepath.Clean (VolPath v)) hostPath (isReadWrite v),
          err), w2, t1) by (symmetry; exact Hrun)
  end.
  cbn. eapply outcome_recorded; eauto.
Qed.

(** ** What the calls of a run can be *)

Lemma allocation_calls `{Env W} (v : Volume) (container : Container) (w : W) (ev : event) :
  In ev (calls_of (allocation v container w)) → step_of ev = Allocating.
Proof.
  unfold allocation, createVolumeHostPath, calls_of.
  destruct (negb (isBindMount v) && bool_decide (HostPath v = "")); [|by intros []].
  unfold bind, ret.
  destruct (graph_Create w) as [[id|err] w1]; simpl.
  - destruct (driver_Get id w1) as [[hostPath [err|]] w2]; simpl;
      intros [<-|[<-|[]]]; done.
  - intros [<-|[]]; done.
Qed.

Lemma createIfNotExists_calls `{Env W} (destination : string) (isDir : bool) (w : W) :
  ∃ rest,
    calls_of (createIfNotExists destination isDir w)
    = EvStat destination (host_Stat destination w) :: rest
    ∧ ∀ ev, In ev rest →
        step_of ev = Creating
        ∧ ∀ err, failure ev = Some err →
                 value_of (createIfNotExists destination isDir w) = Some err.
Proof.
  unfold createIfNotExists, calls_of, value_of. unfold_calls.
  destruct (host_Stat destination w) as [fi|err]; simpl.
  { eexists. split; [done|]. by intros ev []. }
  destruct (os.IsNotExist err); simpl.
  2: { eexists. split; [done|]. by intros ev []. }
  destruct isDir.
  - destruct (host_MkdirAll destination 493 w) as [r w1]. simpl.
    eexists. split; [done|]. intros ev [<-|[]]. done.
  - destruct (host_MkdirAll (filepath.Dir destination) 493 w) as [[e|] w1]; simpl.
    + eexists. split; [done|]. intros ev [<-|[]]. split; [done|]. simpl. congruence.
    + destruct (host_OpenFile destination os.O_CREATE 493 w1) as [[e|] w2]; simpl;
        (eexists; split; [done|]; intros ev [<-|[<-|[]]]; split; simpl; congruence).
Qed.

Lemma ownership_calls `{Env W} (source destination : string) (w : W) r (ev : event) :
  ownership_outcome source destination w r →
  In ev (calls_of r) →
  step_of ev = Seeding ∧ ∀ err, failure ev = Some err → value_of r = Some err.
Proof.
  unfold calls_of, value_of.
  destruct 1; simpl; intros Hin;
    repeat (destruct Hin as [<-|Hin]); try done; split; simpl; congruence.
Qed.

Lemma seeding_calls `{Env W} (source destination : string) (w : W) r (ev : event) :
  seeding_outcome source destination w r →
  In ev (calls_of r) →
  step_of ev = Seeding ∧ ∀ err, failure ev = Some err → value_of r = Some err.
Proof.
  destruct 1 as [| ? ? ? ? Hown | | ? ? ? ? ? ? ? ? ? Hown | | ? ? ? ? ? ? ? ? ? Hown];
    unfold calls_of, value_of; simpl; intros Hin;
    repeat (destruct Hin as [<-|Hin]); try done;
    try (split; simpl; congruence);
    apply (ownership_calls _ _ _ _ _ Hown Hin).
Qed.

Lemma later_step_of (path : string) (ev : event) :
  later_step path ev = true → step_of ev ≠ Allocating ∧ step_of ev ≠ Resolving.
Proof. by destruct ev. Qed.

(** The calls of an allocation that ended in [t0]. *)
Lemma allocation_calls_of `{Env W} (v : Volume) (container : Container) (w : W) r w1 t0 :
  allocation v container w = (r, w1, t0) →
  ∀ ev, In ev t0 → step_of ev = Allocating.
Proof. intros Heq ev. generalize (allocation_calls v container w ev). by rewrite Heq. Qed.

Lemma createIfNotExists_calls_of `{Env W} (destination : string) (isDir : bool)
    (w : W) r w2 t2 :
  createIfNotExists destination isDir w = (r, w2, t2) →
  ∃ rest, t2 = EvStat destination (host_Stat destination w) :: rest
          ∧ ∀ ev, In ev rest →
              step_of ev = Creating ∧ ∀ err, failure ev = Some err → r = Some err.
Proof.
  intros Heq. generalize (createIfNotExists_calls destination isDir w).
  by rewrite Heq.
Qed.

Ltac split_in :=
  repeat match goal with
         | H : In _ (_ ++ _) |- _ => apply in_app_or in H; destruct H as [H|H]
         | H : In _ (_ :: _) |- _ => destruct H as [H|H]
         | H : In _ [] |- _ => destruct H
         end.

(** C9: once the symlink-safe mount-point path has been computed, the volume
    is in the volume set with its resolved host path and its mode, whatever
    [initialize] returns; and when a later step (the stat of the host path,
    the creation of the mount point, a step of the seeding) fails,
    [initialize] returns that error with the entries still recorded. *)
Theorem initialize_error_keeps_record `{Env W}
    (v : Volume) (container : Container) (w : W) (fullVolPath : string) :
  Volumes container !! filepath.Clean (VolPath v) = None →
  mount_point_in (calls_of (initialize v container w)) fullVolPath →
  ∃ path hostPath,
    In (EvEvalSymlinks path (Ok hostPath)) (calls_of (initialize v container w))
    ∧ Volumes (container_of (initialize v container w)) !! filepath.Clean (VolPath v)
      = Some hostPath
    ∧ VolumesRW (container_of (initialize v container w)) !! filepath.Clean (VolPath v)
      = Some (isReadWrite v)
    ∧ ∀ err, later_step_fails path (calls_of (initialize v container w)) err →
             error_of (initialize v container w) = Some err.
Proof.
  intros Hnew (link & root & Hmp).
  pose proof (initialize_run v container w) as Hrun.
  destruct (initialize v container w) as [[[[v1 c1] e] w'] calls].
  unfold calls_of, container_of, error_of, later_step_fails in *. simpl in *.
  inversion Hrun as [Hin| ? ? ? ? _ Halloc | ? ? ? ? ? _ Halloc
                    | ? ? ? ? ? ? _ Halloc | hp w1 t0 hostPath full ? ? t1 ? _ Halloc Heval Hfollow Hafter];
    subst; try pose proof (allocation_calls_of _ _ _ _ _ _ Halloc) as Ht0.
  - rewrite Hnew in Hin. by destruct Hin.
  - by apply Ht0 in Hmp.
  - split_in; simplify_eq. by apply Ht0 in Hmp.
  - split_in; simplify_eq. by apply Ht0 in Hmp.
  - exists hp, hostPath. split; [apply in_or_app; right; by left|].
    split; [apply lookup_insert_eq|]. split; [apply lookup_insert_eq|].
    intros err (ev & Hev & Hlater & Hfail).
    destruct (later_step_of _ _ Hlater) as [Hna Hnr].
    apply in_app_or in Hev. destruct Hev as [Hev|Hev]; [by apply Ht0 in Hev|].
    destruct Hev as [<-|[<-|Hev]]; [done..|]. clear Hmp Hna Hnr.
    inversion Hafter as [? Hstat | ? ? ? t2 Hstat Hcreate | ? ? t2 Hstat Hcreate Hrw
                        | ? ? t2 ? ? t3 Hstat Hcreate Hrw Hseed]; subst;
      try (destruct (createIfNotExists_calls_of _ _ _ _ _ _ Hcreate)
             as (rest & -> & Hrest)); cbn [HostPath] in *.
    + destruct Hev as [<-|[]]. simpl in Hfail. congruence.
    + destruct Hev as [<-|[<-|Hev]]; [done| |by apply (Hrest ev)].
      simpl in Hlater. case_bool_decide; [subst|done]. by rewrite Hstat in Hfail.
    + destruct Hev as [<-|[<-|Hev]]; [done| |by apply (Hrest ev)].
      simpl in Hlater. case_bool_decide; [subst|done]. by rewrite Hstat in Hfail.
    + destruct Hev as [<-|Hev]; [done|]. apply in_app_or in Hev.
      destruct Hev as [[<-|Hev]|Hev].
      * simpl in Hlater. case_bool_decide; [subst|done]. by rewrite Hstat in Hfail.
      * destruct (Hrest ev Hev) as [_ Hr]. by apply Hr in Hfail.
      * by apply (seeding_calls _ _ _ _ _ Hseed Hev).
Qed.

(** ** The seeding inside a run of [initialize] *)

Ltac break_cases :=
  repeat match goal with
         | H : _ ∨ _ |- _ => destruct H as [H|H]
         | H : ∃ _, _ |- _ => destruct H as [? H]
         | H : _ ∧ _ |- _ => destruct H as [? H]
         | H : False |- _ => destruct H
         end; simplify_eq.

(** Either a run makes no call of the seeding, or the volume is read-write
    and managed and the seeding is one run of [copyExistingContents] from
    the mount point to the backing storage. *)
Lemma initialize_seeding `{Env W} (v : Volume) (container : Container) (w : W) :
  (∀ ev, In ev (calls_of (initialize v container w)) → step_of ev ≠ Seeding)
  ∨ (isReadWrite v && negb (isBindMount v) = true
     ∧ ∃ fullVolPath hostPath w2 r,
         seeding_outcome fullVolPath hostPath w2 r
         ∧ (∀ ev, step_of ev = Seeding →
              (In ev (calls_of (initialize v container w)) ↔ In ev (calls_of r)))
         ∧ (∀ p, mount_point_in (calls_of (initialize v container w)) p ↔ p = fullVolPath)
         ∧ (∀ p, backing_storage_in (calls_of (initialize v container w)) p
                 ↔ p = hostPath)).
Proof.
  pose proof (initialize_run v container w) as Hrun.
  destruct (initialize v container w) as [[[[v1 c1] e] w'] calls].
  unfold calls_of in *. simpl in *.
  inversion Hrun as [Hin| ? ? ? ? _ Halloc | ? ? ? ? ? _ Halloc
                    | ? ? ? ? ? ? _ Halloc | hp w1 t0 hostPath full ? ? t1 ? _ Halloc Heval Hfollow Hafter];
    subst; try pose proof (allocation_calls_of _ _ _ _ _ _ Halloc) as Ht0.
  - left. by intros ev [].
  - left. intros ev Hev. apply Ht0 in Hev. congruence.
  - left. intros ev Hev. split_in; subst; [apply Ht0 in Hev; congruence|done].
  - left. intros ev Hev. split_in; subst; [apply Ht0 in Hev; congruence|done..].
  - inversion Hafter as [? Hstat | ? ? ? t2 Hstat Hcreate | ? ? t2 Hstat Hcreate Hrw
                        | ? ? t2 ? ? t3 Hstat Hcreate Hrw Hseed]; subst;
      try (destruct (createIfNotExists_calls_of _ _ _ _ _ _ Hcreate)
             as (rest & -> & Hrest)); cbn [HostPath isReadWrite isBindMount] in *.
    + left. intros ev Hev. split_in; subst; [apply Ht0 in Hev; congruence|done..].
    + left. intros ev Hev. split_in; subst; [apply Ht0 in Hev; congruence|done..|].
      apply Hrest in Hev. destruct Hev as [Hev _]. congruence.
    + left. intros ev Hev. split_in; subst; [apply Ht0 in Hev; congruence|done..|].
      apply Hrest in Hev. destruct Hev as [Hev _]. congruence.
    + right. split; [done|]. exists full, hostPath, w2, (e, w', t3).
      split; [done|]. unfold calls_of, mount_point_in, backing_storage_in. simpl.
      assert (∀ ev, In ev t3 → step_of ev = Seeding) as Ht3.
      { intros ev Hev. by apply (seeding_calls _ _ _ _ _ Hseed Hev). }
      split; [|split].
      * intros ev Hkind. split.
        -- intros Hev. split_in; subst; try done.
           ++ apply Ht0 in Hev. congruence.
           ++ apply Hrest in Hev. destruct Hev as [Hev _]. congruence.
        -- intros Hev. repeat (rewrite in_app_iff || simpl). tauto.
      * intros p. split.
        -- intros (link & root & Hev). split_in; simplify_eq; try done.
           ++ by apply Ht0 in Hev.
           ++ apply Hrest in Hev. by destruct Hev as [Hev _].
           ++ by apply Ht3 in Hev.
        -- intros ->. eexists _, _. repeat (rewrite in_app_iff || simpl). eauto 10.
      * intros p. split.
        -- intros (link & Hev). split_in; simplify_eq; try done.
           ++ by apply Ht0 in Hev.
           ++ apply Hrest in Hev. by destruct Hev as [Hev _].
           ++ by apply Ht3 in Hev.
        -- intros ->. eexists. repeat (rewrite in_app_iff || simpl). eauto 10.
Qed.


(** Owner and mode go from the source of the seeding to its destination, and
    they do whenever the decision about the contents ended without error. *)
Lemma seeding_ownership `{Env W} (source destination : string) (w : W) r :
  seeding_outcome source destination w r →
  (∀ p uid gid res, In (EvChown p uid gid res) (calls_of r) →
     p = destination
     ∧ ∃ stat, In (EvSyscallStat source (Ok stat)) (calls_of r)
               ∧ uid = Uid stat ∧ gid = Gid stat)
  ∧ (∀ p mode res, In (EvChmod p mode res) (calls_of r) →
       p = destination
       ∧ ∃ stat, In (EvSyscallStat source (Ok stat)) (calls_of r)
                 ∧ mode = Mode stat
                 ∧ In (EvChown destination (Uid stat) (Gid stat) None) (calls_of r))
  ∧ (In (EvReadDir source (Ok [])) (calls_of r)
     ∨ (∃ l, l ≠ [] ∧ In (EvReadDir destination (Ok l)) (calls_of r))
     ∨ In (EvCopyWithTar source destination None) (calls_of r) →
     ∃ answer, In (EvSyscallStat source answer) (calls_of r)
       ∧ ∀ stat, answer = Ok stat →
           ∃ res, In (EvChown destination (Uid stat) (Gid stat) res) (calls_of r)
             ∧ (res = None →
                ∃ res2, In (EvChmod destination (Mode stat) res2) (calls_of r))).
Proof.
  intros Hseed. unfold calls_of.
  destruct Hseed;
    try match goal with
        | Hown : ownership_outcome _ _ _ _ |- _ => inversion Hown; subst; clear Hown
        end;
    simpl; (split; [|split]); intros; break_cases; try congruence;
    try (split; [done|]); eauto 15;
    try (eexists; split; [eauto 10|]; intros; simplify_eq; eauto 15).
  all: eexists; split; [eauto 10|intros ?; simplify_eq].
Qed.




(** C5 (amended): the owner and the permission bits that [initialize]
    propagates are those of the mount-point directory inside the container,
    and they are set on the backing storage; the propagation is started
    whenever the decision about the contents ended without error, with or
    without a copy, and it is not when a listing or the copy failed. *)
Theorem initialize_propagates_ownership `{Env W}
    (v : Volume) (container : Container) (w : W) :
  (∀ p uid gid res,
     In (EvChown p uid gid res) (calls_of (initialize v container w)) →
     backing_storage_in (calls_of (initialize v container w)) p
     ∧ ∃ src stat,
         mount_point_in (calls_of (initialize v container w)) src
         ∧ In (EvSyscallStat src (Ok stat)) (calls_of (initialize v container w))
         ∧ uid = Uid stat ∧ gid = Gid stat)
  ∧ (∀ p mode res,
       In (EvChmod p mode res) (calls_of (initialize v container w)) →
       backing_storage_in (calls_of (initialize v container w)) p
       ∧ ∃ src stat,
           mount_point_in (calls_of (initialize v container w)) src
           ∧ In (EvSyscallStat src (Ok stat)) (calls_of (initialize v container w))
           ∧ mode = Mode stat
           ∧ In (EvChown p (Uid stat) (Gid stat) None)
                (calls_of (initialize v container w)))
  ∧ (∀ src dst,
       mount_point_in (calls_of (initialize v container w)) src →
       backing_storage_in (calls_of (initialize v container w)) dst →
       In (EvReadDir src (Ok [])) (calls_of (initialize v container w))
       ∨ (∃ l, l ≠ [] ∧ In (EvReadDir dst (Ok l)) (calls_of (initialize v container w)))
       ∨ In (EvCopyWithTar src dst None) (calls_of (initialize v container w)) →
       ∃ answer,
         In (EvSyscallStat src answer) (calls_of (initialize v container w))
         ∧ ∀ stat, answer = Ok stat →
             ∃ res,
               In (EvChown dst (Uid stat) (Gid stat) res)
                  (calls_of (initialize v container w))
               ∧ (res = None →
                  ∃ res2, In (EvChmod dst (Mode stat) res2)
                             (calls_of (initialize v container w))))
  ∧ (∀ p err,
       In (EvReadDir p (Err err)) (calls_of (initialize v container w))
       ∨ (∃ dst, In (EvCopyWithTar p dst (Some err)) (calls_of (initialize v container w))) →
       ∀ src answer,
         ¬ In (EvSyscallStat src answer) (calls_of (initialize v container w))).
Proof.
  destruct (initialize_seeding v container w)
    as [Hnone | (Hrw & full & hostPath & w2 & r & Hseed & Hiff & Hmp & Hbs)].
  - split; [|split; [|split]].
    + intros p uid gid res Hin. by apply Hnone in Hin.
    + intros p mode res Hin. by apply Hnone in Hin.
    + intros src dst _ _ [Hin|[(l & _ & Hin)|Hin]]; by apply Hnone in Hin.
    + intros p err _ src answer Hin. by apply Hnone in Hin.
  - destruct (seeding_ownership _ _ _ _ Hseed) as (Hchown & Hchmod & Hruns).
    split; [|split; [|split]].
    + intros p uid gid res Hin. apply Hiff in Hin; [|done].
      destruct (Hchown _ _ _ _ Hin) as (-> & stat & Hstat & -> & ->).
      split; [by apply Hbs|]. exists full, stat.
      split; [by apply Hmp|]. split; [by apply Hiff|done].
    + intros p mode res Hin. apply Hiff in Hin; [|done].
      destruct (Hchmod _ _ _ Hin) as (-> & stat & Hstat & -> & Hown).
      split; [by apply Hbs|]. exists full, stat.
      split; [by apply Hmp|]. split; [by apply Hiff|].
      split; [done|]. by apply Hiff.
    + intros src dst Hsrc Hdst Hdone. apply Hmp in Hsrc. apply Hbs in Hdst. subst.
      destruct Hruns as (answer & Hstat & Hnext).
      { destruct Hdone as [Hin|[(l & Hl & Hin)|Hin]].
        - left. by apply Hiff.
        - right. left. exists l. split; [done|]. by apply Hiff.
        - right. right. by apply Hiff. }
      exists answer. split; [by apply Hiff|].
      intros stat Hok. destruct (Hnext stat Hok) as (res & Hch & Hmod).
      exists res. split; [by apply Hiff|].
      intros Hres. destruct (Hmod Hres) as (res2 & Hin2). exists res2. by apply Hiff.
    + intros p err Hfail src answer Hin. apply Hiff in Hin; [|done].
      assert (In (EvReadDir p (Err err)) (calls_of r)
              ∨ ∃ dst, In (EvCopyWithTar p dst (Some err)) (calls_of r)) as Hfail'.
      { destruct Hfail as [Hf|(dst & Hf)]; [left|right; exists dst]; by apply Hiff. }
      clear Hfail Hiff Hchown Hchmod Hruns. unfold calls_of in *.
      destruct Hseed;
        try match goal with
            | Hown : ownership_outcome _ _ _ _ |- _ => inversion Hown; subst; clear Hown
            end;
        simpl in *; break_cases.
Qed.

(** ** Initializing twice *)

(** After a run that returned [nil], or that got as far as the mount-point
    path, the cleaned container path is in the volume set. *)
Lemma initialize_records `{Env W} (v : Volume) (container : Container) (w : W) :
  error_of (initialize v container w) = None
  ∨ (∃ fullVolPath, mount_point_in (calls_of (initialize v container w)) fullVolPath) →
  is_Some (Volumes (container_of (initialize v container w))
             !! filepath.Clean (VolPath v)).
Proof.
  pose proof (initialize_run v container w) as Hrun.
  destruct (initialize v container w) as [[[[v1 c1] e] w'] calls].
  unfold calls_of, container_of, error_of, mount_point_in. simpl.
  inversion Hrun as [Hin| ? ? ? ? _ Halloc | ? ? ? ? ? _ Halloc
                    | ? ? ? ? ? ? _ Halloc | ];
    subst; try pose proof (allocation_calls_of _ _ _ _ _ _ Halloc) as Ht0;
    intros [Hnil|(full & link & root & Hmp)]; try done.
  - by apply Ht0 in Hmp.
  - split_in; simplify_eq. by apply Ht0 in Hmp.
  - split_in; simplify_eq. by apply Ht0 in Hmp.
  - unfold recorded. simpl. rewrite lookup_insert_eq. eauto.
  - unfold recorded. simpl. rewrite lookup_insert_eq. eauto.
Qed.

(** C7: when the cleaned container path of a volume is already in the
    volume set, [initialize] returns [nil], leaves the container (both maps)
    and the host as they are, and makes no call; so after a first call that
    recorded the path, a second call for the same container path changes
    nothing (the first writer wins). *)
Theorem initialize_existing_is_noop `{Env W}
    (v v2 : Volume) (container : Container) (w : W) :
  (is_Some (Volumes container !! filepath.Clean (VolPath v)) →
   initialize v container w = ((cleaned v, container, None), w, []))
  ∧ (filepath.Clean (VolPath v2) = filepath.Clean (VolPath v) →
     error_of (initialize v container w) = None
     ∨ (∃ fullVolPath, mount_point_in (calls_of (initialize v container w)) fullVolPath) →
     initialize v2 (container_of (initialize v container w))
       (host_of (initialize v container w))
     = ((cleaned v2, container_of (initialize v container w), None),
        host_of (initialize v container w), [])).
Proof.
  split; [by apply initialize_present|].
  intros Hpath Hfirst. apply initialize_present.
  rewrite Hpath. by apply initialize_records.
Qed.

(** ** Building the volume set *)

Lemma add_config_volumes_lookup (paths : list string) (volumes : gmap string Volume)
    (p : string) :
  add_config_volumes volumes paths !! p
  = match volumes !! p with
    | Some vol => Some vol
    | None => if decide (p ∈ paths) then Some (mkVolume "" p true false) else None
    end.
Proof.
  unfold add_config_volumes. revert volumes.
  induction paths as [|a paths IH]; intros volumes.
  - cbn [foldl]. destruct (volumes !! p); [done|].
    case_decide as Hin; [|done]. by apply elem_of_nil in Hin.
  - cbn [foldl]. rewrite IH.
    pose proof (elem_of_cons paths p a) as Hcons.
    case_bool_decide as Ha.
    + destruct (volumes !! p) eqn:Hp; [done|].
      assert (p ≠ a) as Hne by (intros ->; rewrite Hp in Ha; by destruct Ha).
      repeat case_decide; try done; exfalso; tauto.
    + assert (volumes !! a = None) as Hna.
      { destruct (volumes !! a) eqn:E; [|done]. destruct Ha. eauto. }
      destruct (decide (p = a)) as [->|Hne].
      * rewrite lookup_insert_eq, Hna. rewrite decide_True; [done|]. tauto.
      * rewrite lookup_insert_ne by done.
        destruct (volumes !! p); [done|].
        repeat case_decide; try done; exfalso; tauto.
Qed.

(** [initialize] never changes an entry that the volume set already has. *)
Lemma initialize_keeps_entries `{Env W} (v : Volume) (container : Container) (w : W)
    (p hostPath : string) :
  Volumes container !! p = Some hostPath →
  Volumes (container_of (initialize v container w)) !! p = Some hostPath
  ∧ VolumesRW (container_of (initialize v container w)) !! p = VolumesRW container !! p.
Proof.
  intros Hp. pose proof (initialize_run v container w) as Hrun.
  destruct (initialize v container w) as [[[[v1 c1] e] w'] calls].
  unfold container_of. simpl.
  inversion Hrun; subst; try done.
  assert (filepath.Clean (VolPath v) ≠ p) as Hne by (intros Heq; rewrite Heq in *; congruence).
  unfold recorded. simpl. by rewrite !lookup_insert_ne.
Qed.

Lemma range_initialize_keeps_entries `{Env W} (volumes : list Volume)
    (container : Container) (w : W) (p hostPath : string) :
  Volumes container !! p = Some hostPath →
  Volumes (value_of (range_initialize volumes container w)).1 !! p = Some hostPath
  ∧ VolumesRW (value_of (range_initialize volumes container w)).1 !! p
    = VolumesRW container !! p.
Proof.
  revert container w. induction volumes as [|v volumes IH]; intros container w Hp.
  - done.
  - simpl. unfold bind.
    destruct (initialize_keeps_entries v container w p hostPath Hp) as [Hv Hrw].
    destruct (initialize v container w) as [[[[v1 c1] e] w1] t1].
    unfold container_of in *. simpl in *.
    destruct e as [err|].
    + unfold ret, value_of. simpl. done.
    + destruct (IH c1 w1 Hv) as [Hv' Hrw'].
      destruct (range_initialize volumes c1 w1) as [[[c2 e2] w2] t2].
      unfold value_of in *. simpl in *. split; [done|]. by rewrite Hrw'.
Qed.



(** ** The runs of the examples *)

Lemma initialize_existing_is_noop_witness :
  initialize (H := TestHost.env ∅) empty_volume container_with_data seeded_host
  = ((cleaned empty_volume, container_with_data, None), seeded_host, [])
  ∧ calls_of
      (initialize (H := TestHost.env ∅) empty_volume
         (container_of (initialize (H := TestHost.env ∅) empty_volume plain_container
                          seeded_host))
         (host_of (initialize (H := TestHost.env ∅) empty_volume plain_container
                     seeded_host)))
    = [].
Proof.
  split.
  - refine (proj1 (initialize_existing_is_noop (H := TestHost.env ∅)
                     empty_volume empty_volume container_with_data seeded_host) _).
    vm_compute. eauto.
  - rewrite (proj2 (initialize_existing_is_noop (H := TestHost.env ∅)
                      empty_volume empty_volume plain_container seeded_host)
               eq_refl (or_introl eq_refl)).
    reflexivity.
Defined.

Lemma initialize_error_keeps_record_witness :
  error_of (initialize (H := TestHost.env ∅) new_volume plain_container read_only_host)
  = Some (ErrSys EROFS)
  ∧ Volumes (container_of (initialize (H := TestHost.env ∅) new_volume plain_container
                             read_only_host)) !! "/newvol" = Some "/vol/1"
  ∧ VolumesRW (container_of (initialize (H := TestHost.env ∅) new_volume plain_container
                               read_only_host)) !! "/newvol" = Some true.
Proof.
  destruct (initialize_error_keeps_record (H := TestHost.env ∅)
              new_volume plain_container read_only_host "/rootfs/newvol")
    as (path & hostPath & Hin & Hvol & Hrw & Hfail).
  - reflexivity.
  - exists "/rootfs/newvol", "/rootfs". vm_compute. auto 10.
  - split; [|split].
    + apply Hfail. exists (EvMkdirAll "/rootfs/newvol" 493 (Some (ErrSys EROFS))).
      split; [vm_compute; auto 10|]. split; reflexivity.
    + vm_compute. reflexivity.
    + exact Hrw.
Defined.



(** C5 (as stated, refuted): after [initialize] the mount point keeps its
    own owner and mode, and it is the backing storage that has taken them
    over. *)
Lemma initialize_owner_goes_to_backing_storage :
  TestHost.SyscallStat "/rootfs/data" seeded_host = Ok (mkStat_t 5 6 16832)
  ∧ TestHost.SyscallStat "/vol/1" seeded_host = Ok (mkStat_t 0 0 16877)
  ∧ error_of (initialize (H := TestHost.env ∅) empty_volume plain_container seeded_host)
    = None
  ∧ TestHost.SyscallStat "/rootfs/data"
      (host_of (initialize (H := TestHost.env ∅) empty_volume plain_container seeded_host))
    = Ok (mkStat_t 5 6 16832)
  ∧ TestHost.SyscallStat "/vol/1"
      (host_of (initialize (H := TestHost.env ∅) empty_volume plain_container seeded_host))
    = Ok (mkStat_t 5 6 16832).
Proof. repeat split; by vm_compute. Qed.

Lemma initialize_propagates_ownership_witness :
  backing_storage_in
    (calls_of (initialize (H := TestHost.env ∅) empty_volume plain_container seeded_host))
    "/vol/1"
  ∧ ∃ src stat,
      mount_point_in
        (calls_of (initialize (H := TestHost.env ∅) empty_volume plain_container
                     seeded_host)) src
      ∧ In (EvSyscallStat src (Ok stat))
           (calls_of (initialize (H := TestHost.env ∅) empty_volume plain_container
                        seeded_host))
      ∧ 5 = Uid stat ∧ 6 = Gid stat.
Proof.
  apply (proj1 (initialize_propagates_ownership (H := TestHost.env ∅)
                  empty_volume plain_container seeded_host) "/vol/1" 5 6 None).
  vm_compute. auto 20.
Defined.



(** After [createVolumes] the container of the example has the volume it had
    and a fresh managed volume for the path its image declares. *)
Example createVolumes_run :
  map_to_list
    (Volumes (value_of (createVolumes (H := TestHost.env ∅) container_with_image_volumes
                          seeded_host)).1)
  = [("/newvol", "/var/lib/docker/vfs/dir/v"); ("/data", "/vol/2")]
  ∧ (value_of (createVolumes (H := TestHost.env ∅) container_with_image_volumes
                 seeded_host)).2 = None.
Proof. vm_compute. split; reflexivity. Qed.

(** A failure of the seeding, after the mount point has been created as a
    file: the listing of the mount point fails, [initialize] returns the
    error, and the volume stays recorded. *)
Example initialize_seeding_failure_keeps_record :
  calls_of (initialize (H := TestHost.env ∅) file_volume plain_container seeded_host)
  = [EvEvalSymlinks "/vol/2/g" (Ok "/vol/2/g");
     EvFollowSymlinkInScope "/rootfs/cfg" "/rootfs" (Ok "/rootfs/cfg");
     EvStat "/vol/2/g" (Ok (mkFileInfo "g" false));
     EvStat "/rootfs/cfg" (Err (ErrSys ENOENT));
     EvMkdirAll "/rootfs" 493 None;
     EvOpenFile "/rootfs/cfg" os.O_CREATE 493 None;
     EvReadDir "/rootfs/cfg" (Err (ErrSys ENOTDIR))]
  ∧ error_of (initialize (H := TestHost.env ∅) file_volume plain_container seeded_host)
    = Some (ErrSys ENOTDIR)
  ∧ Volumes (container_of (initialize (H := TestHost.env ∅) file_volume plain_container
                             seeded_host)) !! "/cfg" = Some "/vol/2/g".
Proof. by vm_compute. Qed.

(** * Further properties *)

(** ** More on splitting *)

Lemma Cut_some (s : string) (sep : ascii) (b r : string) :
  strings.Cut s sep = Some (b, r) →
  s = b +:+ String sep r
  ∧ strings.Count b sep = 0%nat
  ∧ strings.Count s sep = S (strings.Count r sep).
Proof.
  revert b. induction s as [|a s IH]; intros b; simpl; [done|].
  destruct (Ascii.eqb a sep) eqn:Ha.
  - intros [= <- <-]. apply Ascii.eqb_eq in Ha as ->. done.
  - destruct (strings.Cut s sep) as [[b' r']|] eqn:Hcut; [|done].
    intros [= <- <-]. destruct (IH b' eq_refl) as (-> & Hb & Hc).
    rewrite append_cons. simpl. rewrite Ha. simpl. by rewrite Hb, <- Hc.
Qed.

Lemma Cut_with_sep (s : string) (sep : ascii) :
  strings.Count s sep ≠ 0%nat → ∃ b r, strings.Cut s sep = Some (b, r).
Proof.
  induction s as [|a s IH]; simpl; [done|].
  destruct (Ascii.eqb a sep); [eauto|]. simpl. intros Hc.
  destruct (IH Hc) as (b & r & ->). eauto.
Qed.

Lemma Cut_none_count (s : string) (sep : ascii) :
  strings.Cut s sep = None → strings.Count s sep = 0%nat.
Proof.
  intros Hcut. destruct (strings.Count s sep) eqn:Hc; [done|].
  destruct (Cut_with_sep s sep) as (b & r & Hsome); congruence.
Qed.

Lemma Split_cut (s : string) (sep : ascii) (b r : string) :
  strings.Cut s sep = Some (b, r) →
  strings.Split s sep = b :: strings.Split r sep.
Proof.
  intros Hcut. destruct (Cut_some _ _ _ _ Hcut) as (_ & _ & Hc).
  unfold strings.Split. rewrite Hc. cbn [strings.SplitN]. by rewrite Hcut.
Qed.

Lemma Split_length (s : string) (sep : ascii) :
  length (strings.Split s sep) = S (strings.Count s sep).
Proof.
  remember (strings.Count s sep) as n eqn:Hn. revert s Hn.
  induction n as [|n IH]; intros s Hn.
  - unfold strings.Split. by rewrite <- Hn.
  - destruct (Cut_with_sep s sep) as (b & r & Hcut); [by rewrite <- Hn|].
    rewrite (Split_cut _ _ _ _ Hcut). simpl. f_equal. apply IH.
    destruct (Cut_some _ _ _ _ Hcut) as (_ & _ & Hc). congruence.
Qed.

Lemma Split_two_fields (h c : string) :
  strings.Count h ":" = 0%nat → strings.Count c ":" = 0%nat →
  strings.Split (h +:+ ":" +:+ c) ":" = [h; c].
Proof.
  intros Hh Hc. change (h +:+ ":" +:+ c) with (h +:+ String ":" c).
  rewrite (Split_cut _ _ h c) by (by apply Cut_at_first_sep).
  by rewrite Split_one_field.
Qed.

(** ** More on [parseBindVolumeSpec] *)

(** X1: a bind spec [hostPath:containerPath] with an absolute host path
    parses to a read-write volume with these two paths. *)
Theorem parseBindVolumeSpec_two_fields (hostPath containerPath : string) :
  strings.Count hostPath ":" = 0%nat →
  strings.Count containerPath ":" = 0%nat →
  filepath.IsAbs hostPath = true →
  parseBindVolumeSpec (hostPath +:+ ":" +:+ containerPath)
  = (mkVolume hostPath containerPath true false, None).
Proof.
  intros Hh Hc Habs. unfold parseBindVolumeSpec.
  rewrite Split_two_fields by done. simpl. by rewrite Habs.
Qed.

Lemma parseBindVolumeSpec_two_fields_witness :
  parseBindVolumeSpec "/host/data:/data"
  = (mkVolume "/host/data" "/data" true false, None).
Proof.
  exact (parseBindVolumeSpec_two_fields "/host/data" "/data" eq_refl eq_refl eq_refl).
Defined.

(** X2: a bind spec with three colons or more is rejected as an invalid
    volume specification, and the volume returned with the error is the zero
    volume. *)
Theorem parseBindVolumeSpec_too_many_fields (spec : string) :
  (3 ≤ strings.Count spec ":")%nat →
  parseBindVolumeSpec spec = (zeroVolume, Some (ErrInvalidVolumeSpec spec)).
Proof.
  intros Hc. unfold parseBindVolumeSpec. cbv zeta. rewrite Split_length.
  destruct (strings.Count spec ":") as [|[|[|n]]]; [lia..|]. reflexivity.
Qed.

Lemma parseBindVolumeSpec_too_many_fields_witness :
  parseBindVolumeSpec "/a:/b:rw:z" = (zeroVolume, Some (ErrInvalidVolumeSpec "/a:/b:rw:z")).
Proof.
  apply (parseBindVolumeSpec_too_many_fields "/a:/b:rw:z"). simpl. lia.
Defined.

(** X3: a bind spec of two or three fields whose host path is not absolute
    (a relative path, or the empty one) is rejected with the error that
    names this host path. *)
Theorem parseBindVolumeSpec_relative_host_path (hostPath containerPath mode : string) :
  strings.Count hostPath ":" = 0%nat →
  strings.Count containerPath ":" = 0%nat →
  strings.Count mode ":" = 0%nat →
  filepath.IsAbs hostPath = false →
  (parseBindVolumeSpec (hostPath +:+ ":" +:+ containerPath)).2
  = Some (ErrNotAbsolute hostPath)
  ∧ (parseBindVolumeSpec (hostPath +:+ ":" +:+ containerPath +:+ ":" +:+ mode)).2
    = Some (ErrNotAbsolute hostPath).
Proof.
  intros Hh Hc Hm Habs. unfold parseBindVolumeSpec.
  rewrite Split_two_fields, Split_three_fields by done. simpl. by rewrite Habs.
Qed.

Lemma parseBindVolumeSpec_relative_host_path_witness :
  (parseBindVolumeSpec "data:/data").2 = Some (ErrNotAbsolute "data")
  ∧ (parseBindVolumeSpec ":/data:rw").2 = Some (ErrNotAbsolute "").
Proof.
  split.
  - exact (proj1 (parseBindVolumeSpec_relative_host_path "data" "/data" ""
                    eq_refl eq_refl eq_refl eq_refl)).
  - exact (proj2 (parseBindVolumeSpec_relative_host_path "" "/data" "rw"
                    eq_refl eq_refl eq_refl eq_refl)).
Defined.

(** X4: whenever [parseBindVolumeSpec] returns without error, the spec had
    two or three fields, the host path of the volume is the first field and
    is absolute, the container path is the second, the volume is writable
    unless there is a third field other than [rw], and the volume is not
    marked as a bind mount. *)
Theorem parseBindVolumeSpec_accepted (spec : string) (vol : Volume) :
  parseBindVolumeSpec spec = (vol, None) →
  filepath.IsAbs (HostPath vol) = true
  ∧ isBindMount vol = false
  ∧ strings.Count (HostPath vol) ":" = 0%nat
  ∧ strings.Count (VolPath vol) ":" = 0%nat
  ∧ ((spec = HostPath vol +:+ ":" +:+ VolPath vol ∧ isReadWrite vol = true)
     ∨ (∃ mode, spec = HostPath vol +:+ ":" +:+ VolPath vol +:+ ":" +:+ mode
                ∧ strings.Count mode ":" = 0%nat
                ∧ isReadWrite vol = bool_decide (mode = "rw"))).
Proof.
  unfold parseBindVolumeSpec. cbv zeta.
  destruct (strings.Cut spec ":") as [[h r]|] eqn:Hcut.
  2: { rewrite Split_one_field by (by apply Cut_none_count). simpl. done. }
  destruct (Cut_some _ _ _ _ Hcut) as (-> & Hh & _).
  rewrite (Split_cut _ _ _ _ Hcut).
  destruct (strings.Cut r ":") as [[c r2]|] eqn:Hcut2.
  2: { rewrite (Split_one_field r) by (by apply Cut_none_count). simpl.
       destruct (filepath.IsAbs h) eqn:Habs; simpl; [|done].
       intros [= <-]. simpl. repeat split; try done; [by apply Cut_none_count|].
       by left. }
  destruct (Cut_some _ _ _ _ Hcut2) as (-> & Hc & _).
  rewrite (Split_cut _ _ _ _ Hcut2).
  destruct (strings.Cut r2 ":") as [[m r3]|] eqn:Hcut3.
  { rewrite (Split_cut _ _ _ _ Hcut3). simpl.
    pose proof (Split_length r3 ":") as Hlen.
    destruct (strings.Split r3 ":"); [done|]. simpl. done. }
  rewrite (Split_one_field r2) by (by apply Cut_none_count). simpl.
  destruct (filepath.IsAbs h) eqn:Habs; simpl; [|done].
  intros [= <-]. simpl. repeat split; try done. right. exists r2.
  split; [done|]. split; [by apply Cut_none_count|]. apply mode_is_rw.
Qed.

Lemma parseBindVolumeSpec_accepted_witness :
  filepath.IsAbs "/host/data" = true
  ∧ isBindMount (mkVolume "/host/data" "/data" false false) = false
  ∧ strings.Count "/host/data" ":" = 0%nat
  ∧ strings.Count "/data" ":" = 0%nat
  ∧ (("/host/data:/data:ro" = "/host/data" +:+ ":" +:+ "/data" ∧ false = true)
     ∨ (∃ mode, "/host/data:/data:ro" = "/host/data" +:+ ":" +:+ "/data" +:+ ":" +:+ mode
                ∧ strings.Count mode ":" = 0%nat
                ∧ false = bool_decide (mode = "rw"))).
Proof.
  exact (parseBindVolumeSpec_accepted "/host/data:/data:ro"
           (mkVolume "/host/data" "/data" false false) eq_refl).
Defined.

(** ** More on [parseVolumesFromSpec] *)

Lemma SplitN_two_cases (spec : string) :
  (strings.Cut spec ":" = None ∧ strings.SplitN spec ":" 2 = [spec])
  ∨ (∃ id mode, strings.Cut spec ":" = Some (id, mode)
                ∧ strings.SplitN spec ":" 2 = [id; mode]).
Proof.
  simpl. destruct (strings.Cut spec ":") as [[id mode]|]; [right|left]; eauto.
Qed.

(** X5: a volumes-from spec without a mode suffix gives what [GetVolumes]
    returns for the named container: its volumes, modes included, or its
    error. *)
Theorem parseVolumesFromSpec_without_mode `{Env W}
    (container c : Container) (spec : string) :
  strings.Count spec ":" = 0%nat →
  daemon_Get spec = Some c →
  parseVolumesFromSpec container spec = container_GetVolumes c.
Proof.
  intros Hc Hget. unfold parseVolumesFromSpec.
  assert (strings.SplitN spec ":" 2 = [spec]) as ->.
  { simpl. by rewrite Cut_without_sep. }
  simpl. rewrite Hget. by destruct (container_GetVolumes c).
Qed.

Lemma parseVolumesFromSpec_without_mode_witness :
  parseVolumesFromSpec (H := TestHost.env {["containerX" := source_container]})
    source_container "containerX" = Ok source_volumes.
Proof.
  exact (parseVolumesFromSpec_without_mode
           (H := TestHost.env {["containerX" := source_container]})
           source_container source_container "containerX" eq_refl eq_refl).
Defined.

(** X6: when the container named before the first colon is not known to the
    daemon, [parseVolumesFromSpec] fails with the not-found error for that
    name, with or without a mode suffix and whatever the suffix is. *)
Theorem parseVolumesFromSpec_unknown_container `{Env W}
    (container : Container) (id mode : string) :
  strings.Count id ":" = 0%nat →
  daemon_Get id = None →
  parseVolumesFromSpec container id = Err (ErrContainerNotFound id)
  ∧ parseVolumesFromSpec container (id +:+ ":" +:+ mode) = Err (ErrContainerNotFound id).
Proof.
  intros Hc Hget. unfold parseVolumesFromSpec.
  rewrite SplitN_two_fields by done.
  assert (strings.SplitN id ":" 2 = [id]) as ->.
  { simpl. by rewrite Cut_without_sep. }
  simpl. by rewrite Hget.
Qed.

Lemma parseVolumesFromSpec_unknown_container_witness :
  parseVolumesFromSpec (H := TestHost.env {["containerX" := source_container]})
    source_container "containerY" = Err (ErrContainerNotFound "containerY")
  ∧ parseVolumesFromSpec (H := TestHost.env {["containerX" := source_container]})
      source_container "containerY:ro" = Err (ErrContainerNotFound "containerY").
Proof.
  exact (parseVolumesFromSpec_unknown_container
           (H := TestHost.env {["containerX" := source_container]})
           source_container "containerY" "ro" eq_refl eq_refl).
Defined.

(** X7: the volumes that [parseVolumesFromSpec] returns are those of a
    container the daemon knows, under the same keys and with the same host
    path, container path and bind-mount flag; only the mode can differ. *)
Theorem parseVolumesFromSpec_inherits `{Env W}
    (container : Container) (spec : string) (inherited : gmap string Volume) :
  parseVolumesFromSpec container spec = Ok inherited →
  ∃ name c volumes,
    daemon_Get name = Some c
    ∧ container_GetVolumes c = Ok volumes
    ∧ dom inherited = dom volumes
    ∧ ∀ p v, inherited !! p = Some v →
        ∃ v0, volumes !! p = Some v0
              ∧ HostPath v = HostPath v0
              ∧ VolPath v = VolPath v0
              ∧ isBindMount v = isBindMount v0.
Proof.
  unfold parseVolumesFromSpec.
  destruct (SplitN_two_cases spec) as [[_ ->]|(id & mode & _ & ->)]; simpl.
  - destruct (daemon_Get spec) as [c|] eqn:Hget; [|done].
    destruct (container_GetVolumes c) as [volumes|] eqn:Hvols; [|done].
    intros [= <-]. exists spec, c, volumes. repeat split; try done. eauto.
  - destruct (daemon_Get id) as [c|] eqn:Hget; [|done].
    destruct (container_GetVolumes c) as [volumes|] eqn:Hvols; [|done].
    destruct (validVolumeMode mode); [done|].
    intros [= <-]. exists id, c, volumes. split; [done|]. split; [done|].
    split; [apply dom_fmap_L|].
    intros p v. rewrite lookup_fmap.
    destruct (volumes !! p) as [v0|]; [|done]. intros [= <-]. eauto.
Qed.

Lemma parseVolumesFromSpec_inherits_witness :
  ∃ name c volumes,
    daemon_Get (Env := TestHost.env {["containerX" := source_container]}) name = Some c
    ∧ container_GetVolumes (Env := TestHost.env {["containerX" := source_container]}) c
      = Ok volumes
    ∧ dom source_volumes = dom volumes
    ∧ ∀ p v, source_volumes !! p = Some v →
        ∃ v0, volumes !! p = Some v0
              ∧ HostPath v = HostPath v0
              ∧ VolPath v = VolPath v0
              ∧ isBindMount v = isBindMount v0.
Proof.
  exact (parseVolumesFromSpec_inherits
           (H := TestHost.env {["containerX" := source_container]})
           source_container "containerX" source_volumes eq_refl).
Defined.

(** ** More on [initialize] *)

Ltac invert_initialize v container w :=
  let Hrun := fresh "Hrun" in
  pose proof (initialize_run v container w) as Hrun;
  destruct (initialize v container w) as [[[[? ?] ?] ?] ?];
  unfold calls_of, container_of, error_of, value_of, host_of in *; simpl in *;
  inversion Hrun; subst; clear Hrun.

(** What follows the recording neither allocates nor resolves. *)
Lemma after_recording_calls `{Env W} (v1 : Volume) (hostPath fullVolPath : string)
    (w1 : W) err w2 t1 (ev : event) :
  after_recording v1 hostPath fullVolPath w1 (err, w2, t1) →
  In ev t1 →
  step_of ev ≠ Allocating ∧ step_of ev ≠ Resolving.
Proof.
  inversion 1 as [? Hstat | ? ? ? t2 Hstat Hcreate | ? ? t2 Hstat Hcreate Hrw
                 | ? ? t2 ? ? t3 Hstat Hcreate Hrw Hseed]; subst;
    try (destruct (createIfNotExists_calls_of _ _ _ _ _ _ Hcreate)
           as (rest & -> & Hrest));
    intros Hev; split_in; subst; try (by split);
    try (apply Hrest in Hev; destruct Hev as [-> _]; by split);
    destruct (seeding_calls _ _ _ _ _ Hseed Hev) as [-> _]; by split.
Qed.

(** X8: [initialize] leaves every field of the container but the two maps
    as it is, and in the maps every entry under another key than the cleaned
    container path; the volume comes back with its container path cleaned
    and its two flags unchanged. *)
Theorem initialize_frame `{Env W} (v : Volume) (container : Container) (w : W) :
  ResolvConfPath (container_of (initialize v container w)) = ResolvConfPath container
  ∧ HostnamePath (container_of (initialize v container w)) = HostnamePath container
  ∧ HostsPath (container_of (initialize v container w)) = HostsPath container
  ∧ basefs (container_of (initialize v container w)) = basefs container
  ∧ Config_Volumes (container_of (initialize v container w)) = Config_Volumes container
  ∧ hostConfig_VolumesFrom (container_of (initialize v container w))
    = hostConfig_VolumesFrom container
  ∧ command_Mounts (container_of (initialize v container w)) = command_Mounts container
  ∧ (∀ p, p ≠ filepath.Clean (VolPath v) →
       Volumes (container_of (initialize v container w)) !! p = Volumes container !! p
       ∧ VolumesRW (container_of (initialize v container w)) !! p
         = VolumesRW container !! p)
  ∧ VolPath (value_of (initialize v container w)).1.1 = filepath.Clean (VolPath v)
  ∧ isReadWrite (value_of (initialize v container w)).1.1 = isReadWrite v
  ∧ isBindMount (value_of (initialize v container w)).1.1 = isBindMount v.
Proof.
  invert_initialize v container w; repeat split; try done;
    unfold recorded; simpl; by rewrite lookup_insert_ne.
Qed.

(** X9: unless a run of [initialize] got as far as the mount-point path, it
    returns the container unchanged: a failed allocation or a failed
    resolution of the host path or of the mount point records nothing. *)
Theorem initialize_early_failure `{Env W} (v : Volume) (container : Container) (w : W) :
  (∀ fullVolPath, ¬ mount_point_in (calls_of (initialize v container w)) fullVolPath) →
  container_of (initialize v container w) = container.
Proof.
  unfold mount_point_in. intros Hno.
  invert_initialize v container w; try done.
  exfalso. eapply Hno. eexists _, _. apply in_or_app. right. right. by left.
Qed.

Lemma initialize_early_failure_witness :
  container_of (initialize (H := TestHost.env ∅) missing_volume plain_container seeded_host)
  = plain_container.
Proof.
  apply (initialize_early_failure (H := TestHost.env ∅)).
  intros full (link & root & Hin). vm_compute in Hin. break_cases.
Defined.

(** X10: for a volume that is read-only or a bind mount, [initialize] makes
    no call of the seeding: no listing, no copy, and no change of owner or
    mode. *)
Theorem initialize_no_seeding `{Env W} (v : Volume) (container : Container) (w : W)
    (ev : event) :
  isReadWrite v = false ∨ isBindMount v = true →
  In ev (calls_of (initialize v container w)) →
  step_of ev ≠ Seeding.
Proof.
  intros Hv Hin.
  destruct (initialize_seeding v container w) as [Hnone|(Hrw & _)]; [by apply Hnone|].
  apply andb_true_iff in Hrw. destruct Hrw as [Hrw Hnb].
  apply negb_true_iff in Hnb. destruct Hv; congruence.
Qed.

Lemma initialize_no_seeding_witness :
  calls_of (initialize (H := TestHost.env ∅) bind_volume plain_container seeded_host)
  = [EvEvalSymlinks "/vol/2" (Ok "/vol/2");
     EvFollowSymlinkInScope "/rootfs/data" "/rootfs" (Ok "/rootfs/data");
     EvStat "/vol/2" (Ok (mkFileInfo "2" true));
     EvStat "/rootfs/data" (Ok (mkFileInfo "data" true))]
  ∧ step_of (EvStat "/rootfs/data" (Ok (mkFileInfo "data" true))) ≠ Seeding.
Proof.
  split; [by vm_compute|].
  apply (initialize_no_seeding (H := TestHost.env ∅) bind_volume plain_container
           seeded_host).
  - by right.
  - vm_compute. auto 10.
Defined.

(** X11: for a bind mount, and for a volume that comes with a host path,
    [initialize] never asks the volume graph or its driver, and the host
    path it resolves is the one of the volume. *)
Theorem initialize_no_allocation `{Env W} (v : Volume) (container : Container) (w : W) :
  isBindMount v = true ∨ HostPath v ≠ "" →
  (∀ ev, In ev (calls_of (initialize v container w)) → step_of ev ≠ Allocating)
  ∧ (∀ p r, In (EvEvalSymlinks p r) (calls_of (initialize v container w)) →
       p = HostPath v)
  ∧ HostPath (value_of (initialize v container w)).1.1 = HostPath v.
Proof.
  intros Hv.
  assert (allocation v container w = ((HostPath v, None), w, [])) as Halloc.
  { unfold allocation. destruct Hv as [->|Hne]; [done|].
    by rewrite bool_decide_eq_false_2, andb_false_r. }
  pose proof (initialize_run v container w) as Hrun.
  destruct (initialize v container w) as [[[[v1 c1] e] w'] calls].
  unfold calls_of, value_of in *. simpl in *.
  inversion Hrun as [Hin| ? ? ? ? _ Ha | ? ? ? ? ? _ Ha
                    | ? ? ? ? ? ? _ Ha | ? ? ? ? ? ? ? t1 ? _ Ha Heval Hfollow Hafter];
    subst; try (rewrite Halloc in Ha; simplify_eq); simpl.
  - split; [by intros ev []|]. split; [by intros p r []|done].
  - split; [by intros ev [<-|[]]|]. split; [|done].
    by intros p r [[= <- <-]|[]].
  - split; [by intros ev [<-|[<-|[]]]|]. split; [|done].
    by intros p r [[= <- <-]|[[=]|[]]].
  - pose proof (λ ev, after_recording_calls _ _ _ _ _ _ _ ev Hafter) as Ht1.
    split; [|split; [|done]].
    + intros ev [<-|[<-|Hev]]; [done..|]. by apply Ht1.
    + intros p r [[= <- <-]|[[=]|Hev]]; [done|]. by apply Ht1 in Hev as [_ ?].
Qed.

Lemma initialize_no_allocation_witness :
  HostPath (value_of (initialize (H := TestHost.env ∅) bind_volume plain_container
                        seeded_host)).1.1 = "/vol/2".
Proof.
  apply (initialize_no_allocation (H := TestHost.env ∅) bind_volume plain_container
           seeded_host). by left.
Defined.

(** The two ways [createVolumeHostPath] can go. *)
Lemma createVolumeHostPath_run `{Env W} (container : Container) (w : W) :
  (∃ err w1,
     graph_Create w = (Err err, w1)
     ∧ createVolumeHostPath container w
       = (("", Some err), w1, [EvVolumesCreate (Err err)]))
  ∨ (∃ id w1 hostPath answer w2,
       graph_Create w = (Ok id, w1)
       ∧ driver_Get id w1 = ((hostPath, answer), w2)
       ∧ createVolumeHostPath container w
         = ((hostPath, ErrDriverGet id <$> answer), w2,
            [EvVolumesCreate (Ok id); EvDriverGet id (hostPath, answer)])).
Proof.
  unfold createVolumeHostPath, bind, ret.
  destruct (graph_Create w) as [[id|err] w1]; simpl.
  - right. destruct (driver_Get id w1) as [[hostPath [err|]] w2] eqn:Hget; simpl;
      by eexists _, _, _, _, _.
  - left. by eexists _, _.
Qed.

(** X12: a managed volume without host path whose container path is new
    gets its storage from the volume graph: the run starts by asking the
    graph for a volume; when the graph or its driver fails, that error is
    returned (the driver's one wrapped with the volume id) and nothing is
    recorded; and when the run returns [nil], the host path that was
    resolved and recorded is the one the driver gave for the volume just
    created. *)
Theorem initialize_allocates `{Env W} (v : Volume) (container : Container) (w : W) :
  isBindMount v = false →
  HostPath v = "" →
  Volumes container !! filepath.Clean (VolPath v) = None →
  (∃ answer rest, calls_of (initialize v container w) = EvVolumesCreate answer :: rest)
  ∧ (∀ err, In (EvVolumesCreate (Err err)) (calls_of (initialize v container w)) →
       error_of (initialize v container w) = Some err
       ∧ container_of (initialize v container w) = container)
  ∧ (∀ id hostPath err,
       In (EvDriverGet id (hostPath, Some err)) (calls_of (initialize v container w)) →
       error_of (initialize v container w) = Some (ErrDriverGet id err)
       ∧ container_of (initialize v container w) = container)
  ∧ (error_of (initialize v container w) = None →
     ∃ id hostPath resolved,
       In (EvVolumesCreate (Ok id)) (calls_of (initialize v container w))
       ∧ In (EvDriverGet id (hostPath, None)) (calls_of (initialize v container w))
       ∧ In (EvEvalSymlinks hostPath (Ok resolved)) (calls_of (initialize v container w))
       ∧ HostPath (value_of (initialize v container w)).1.1 = hostPath
       ∧ Volumes (container_of (initialize v container w)) !! filepath.Clean (VolPath v)
         = Some resolved).
Proof.
  intros Hbind Hhost Hnew.
  assert (allocation v container w = createVolumeHostPath container w) as Halloc.
  { unfold allocation. by rewrite Hbind, Hhost. }
  pose proof (initialize_run v container w) as Hrun.
  pose proof (createVolumeHostPath_run container w) as Hcases.
  rewrite <- Halloc in Hcases. clear Halloc.
  destruct (initialize v container w) as [[[[v1 c1] e] w'] calls].
  unfold calls_of, value_of, container_of, error_of in *. simpl in *.
  inversion Hrun as [Hin| ? ? ? ? _ Ha | ? ? ? ? ? _ Ha
                    | ? ? ? ? ? ? _ Ha | ? ? ? ? ? ? ? t1 ? _ Ha Heval Hfollow Hafter];
    subst; [rewrite Hnew in Hin; by destruct Hin|..];
    try pose proof (λ ev, after_recording_calls _ _ _ _ _ _ _ ev Hafter) as Ht1;
    destruct Hcases
      as [(err' & w1' & Hcreate & Heq)|(id & w1' & hp' & answer & w2' & Hcreate & Hget & Heq)];
    rewrite Heq in Ha; try destruct answer; simplify_eq; simpl.
  all: split; [by eexists _, _|].
  all: split; [intros err0 Hin|split; [intros id0 hp0 err0 Hin|intros He]].
  all: simpl in *; break_cases; try done.
  all: try (by apply Ht1 in Hin as [? ?]).
  eexists _, _, _. split; [by left|]. split; [right; by left|].
  split; [right; right; by left|]. split; [done|].
  unfold recorded. simpl. by rewrite lookup_insert_eq.
Qed.

Lemma initialize_allocates_witness :
  ∃ id hostPath resolved,
    In (EvVolumesCreate (Ok id))
       (calls_of (initialize (H := TestHost.env ∅) fresh_volume plain_container seeded_host))
    ∧ In (EvDriverGet id (hostPath, None))
         (calls_of (initialize (H := TestHost.env ∅) fresh_volume plain_container
                      seeded_host))
    ∧ In (EvEvalSymlinks hostPath (Ok resolved))
         (calls_of (initialize (H := TestHost.env ∅) fresh_volume plain_container
                      seeded_host))
    ∧ HostPath (value_of (initialize (H := TestHost.env ∅) fresh_volume plain_container
                            seeded_host)).1.1 = hostPath
    ∧ Volumes (container_of (initialize (H := TestHost.env ∅) fresh_volume plain_container
                               seeded_host)) !! filepath.Clean (VolPath fresh_volume)
      = Some resolved.
Proof.
  apply (initialize_allocates (H := TestHost.env ∅) fresh_volume plain_container
           seeded_host eq_refl eq_refl eq_refl).
  by vm_compute.
Defined.

(** When the two maps of the container have the same keys, they still have
    after [initialize]. *)
Lemma initialize_same_keys `{Env W} (v : Volume) (container : Container) (w : W) :
  dom (Volumes container) = dom (VolumesRW container) →
  dom (Volumes (container_of (initialize v container w)))
  = dom (VolumesRW (container_of (initialize v container w))).
Proof.
  intros Hdom. invert_initialize v container w; try done.
  unfold recorded. simpl. rewrite !dom_insert_L. by rewrite Hdom.
Qed.

Lemma seeding_ok_sets_owner `{Env W} (source destination : string) (w w2 : W) t :
  seeding_outcome source destination w (None, w2, t) →
  ∃ pre stat,
    t = pre ++ [EvSyscallStat source (Ok stat);
                EvChown destination (Uid stat) (Gid stat) None;
                EvChmod destination (Mode stat) None].
Proof.
  inversion 1 as [| ? ? ? ? Hown | | ? ? ? ? ? ? ? ? ? Hown | | ? ? ? ? ? ? ? ? ? Hown];
    subst; inversion Hown; subst.
  - by eexists [_], _.
  - by eexists [_; _], _.
  - by eexists [_; _; _], _.
Qed.

(** X13: when [initialize] returns [nil] for a read-write managed volume
    whose container path was new, its last three calls are the stat of the
    mount point and the successful change of owner and of mode of the
    backing storage to what the stat answered. *)
Theorem initialize_ok_sets_owner `{Env W} (v : Volume) (container : Container) (w : W) :
  isReadWrite v = true →
  isBindMount v = false →
  Volumes container !! filepath.Clean (VolPath v) = None →
  error_of (initialize v container w) = None →
  ∃ pre fullVolPath hostPath stat,
    calls_of (initialize v container w)
    = pre ++ [EvSyscallStat fullVolPath (Ok stat);
              EvChown hostPath (Uid stat) (Gid stat) None;
              EvChmod hostPath (Mode stat) None]
    ∧ mount_point_in (calls_of (initialize v container w)) fullVolPath
    ∧ backing_storage_in (calls_of (initialize v container w)) hostPath.
Proof.
  intros Hrw Hbind Hnew.
  pose proof (initialize_run v container w) as Hrun.
  destruct (initialize v container w) as [[[[v1 c1] e] w'] calls].
  unfold calls_of, error_of, mount_point_in, backing_storage_in in *. simpl in *.
  intros ->.
  inversion Hrun as [Hin| | | | ? ? t0 hostPath full ? ? t1 ? _ Ha Heval Hfollow Hafter];
    subst; [rewrite Hnew in Hin; by destruct Hin|].
  inversion Hafter as [ | | ? ? t2 Hstat Hcreate Hno
                      | ? ? t2 ? ? t3 Hstat Hcreate _ Hseed]; subst.
  { simpl in Hno. by rewrite Hrw, Hbind in Hno. }
  destruct (seeding_ok_sets_owner _ _ _ _ _ Hseed) as (pre & st & ->).
  eexists (t0 ++ [_; _] ++ _ :: t2 ++ pre), full, hostPath, st.
  split.
  { rewrite <- !app_assoc. simpl. by rewrite <- !app_assoc. }
  split; [eexists _, _|eexists]; repeat (rewrite in_app_iff || simpl); eauto 10.
Qed.

Lemma initialize_ok_sets_owner_witness :
  ∃ pre fullVolPath hostPath stat,
    calls_of (initialize (H := TestHost.env ∅) empty_volume plain_container seeded_host)
    = pre ++ [EvSyscallStat fullVolPath (Ok stat);
              EvChown hostPath (Uid stat) (Gid stat) None;
              EvChmod hostPath (Mode stat) None]
    ∧ mount_point_in
        (calls_of (initialize (H := TestHost.env ∅) empty_volume plain_container
                     seeded_host)) fullVolPath
    ∧ backing_storage_in
        (calls_of (initialize (H := TestHost.env ∅) empty_volume plain_container
                     seeded_host)) hostPath.
Proof.
  apply (initialize_ok_sets_owner (H := TestHost.env ∅) empty_volume plain_container
           seeded_host); by vm_compute.
Defined.

(** ** More on building the volume set *)

Lemma range_initialize_ok `{Env W} (volumes : list Volume) (container : Container)
    (w : W) (v : Volume) :
  (value_of (range_initialize volumes container w)).2 = None →
  In v volumes →
  is_Some (Volumes (value_of (range_initialize volumes container w)).1
             !! filepath.Clean (VolPath v)).
Proof.
  revert container w. induction volumes as [|v0 volumes IH]; intros container w; [done|].
  simpl. unfold bind.
  pose proof (initialize_records v0 container w) as Hrec.
  destruct (initialize v0 container w) as [[[[v1 c1] e] w1] t1].
  unfold container_of, error_of, calls_of in Hrec. simpl in *.
  destruct e as [err|]; [done|].
  pose proof (IH c1 w1) as IH1.
  pose proof (range_initialize_keeps_entries volumes c1 w1 (filepath.Clean (VolPath v0)))
    as Hkeep.
  destruct (range_initialize volumes c1 w1) as [[[c2 e2] w2] t2].
  unfold value_of in *. simpl in *.
  intros He [<-|Hin]; [|by apply IH1].
  destruct Hrec as [hp Hhp]; [by left|].
  destruct (Hkeep hp Hhp) as [-> _]. eauto.
Qed.

Lemma range_map_values `{Env W} (m : gmap string Volume) (v : Volume) :
  In v (range_map m).*2 ↔ ∃ p, m !! p = Some v.
Proof.
  rewrite <- list_elem_of_In, range_map_perm, list_elem_of_fmap. split.
  - intros [[p v'] [-> Hin]]. exists p. by apply elem_of_map_to_list.
  - intros [p Hp]. exists (p, v). split; [done|]. by apply elem_of_map_to_list.
Qed.

(** X14: when [createVolumes] returns [nil], the volume set has an entry
    for the cleaned container path of every volume that [GetVolumes]
    returned, and for the cleaned form of every path that the image or the
    configuration declares and that [GetVolumes] did not have as a key. *)
Theorem createVolumes_ok `{Env W}
    (container : Container) (volumes : gmap string Volume) (w : W) :
  container_GetVolumes container = Ok volumes →
  (value_of (createVolumes container w)).2 = None →
  (∀ p vol, volumes !! p = Some vol →
     is_Some (Volumes (value_of (createVolumes container w)).1
                !! filepath.Clean (VolPath vol)))
  ∧ (∀ p, p ∈ Config_Volumes container → volumes !! p = None →
       is_Some (Volumes (value_of (createVolumes container w)).1 !! filepath.Clean p)).
Proof.
  intros Hget. unfold createVolumes. rewrite Hget. intros Hok.
  assert (∀ p, p ∈ range_set (Config_Volumes container) ↔ p ∈ Config_Volumes container)
    as Hrange.
  { intros p. rewrite range_set_perm. apply elem_of_elements. }
  split.
  - intros p vol Hp. apply range_initialize_ok; [done|].
    apply range_map_values. exists p. by rewrite add_config_volumes_lookup, Hp.
  - intros p Hin Hp.
    change (filepath.Clean p) with (filepath.Clean (VolPath (mkVolume "" p true false))).
    apply range_initialize_ok; [done|].
    apply range_map_values. exists p. rewrite add_config_volumes_lookup, Hp.
    by rewrite decide_True by (by apply Hrange).
Qed.

Lemma createVolumes_ok_witness :
  is_Some (Volumes (value_of (createVolumes (H := TestHost.env ∅)
                                container_with_image_volumes seeded_host)).1
             !! filepath.Clean "/newvol").
Proof.
  refine (proj2 (createVolumes_ok (H := TestHost.env ∅) container_with_image_volumes
                   image_volumes seeded_host eq_refl _) "/newvol" _ _).
  - by vm_compute.
  - unfold container_with_image_volumes. simpl. set_solver.
  - by vm_compute.
Defined.

Lemma applyVolumesFrom_loop_keeps_entries `{Env W} (specs : list string)
    (container : Container) (w : W) (p hostPath : string) :
  Volumes container !! p = Some hostPath →
  Volumes (value_of (applyVolumesFrom_loop specs container w)).1 !! p = Some hostPath
  ∧ VolumesRW (value_of (applyVolumesFrom_loop specs container w)).1 !! p
    = VolumesRW container !! p.
Proof.
  revert container w. induction specs as [|spec specs IH]; intros container w Hp; [done|].
  simpl. destruct (parseVolumesFromSpec container spec) as [volumes|err]; [|done].
  unfold bind.
  pose proof (range_initialize_keeps_entries (range_map volumes).*2 container w
                p hostPath Hp) as [Hv Hrw].
  destruct (range_initialize (range_map volumes).*2 container w) as [[[c1 e] w1] t1].
  unfold value_of in *. simpl in *.
  destruct e as [err|]; [done|].
  destruct (IH c1 w1 Hv) as [Hv' Hrw'].
  destruct (applyVolumesFrom_loop specs c1 w1) as [[[c2 e2] w2] t2].
  simpl in *. split; [done|]. by rewrite Hrw'.
Qed.

(** X15: [applyVolumesFrom] never changes an entry that the volume set of
    the container already has: an inherited volume does not replace it. *)
Theorem applyVolumesFrom_keeps_entries `{Env W} (container : Container) (w : W)
    (p hostPath : string) :
  Volumes container !! p = Some hostPath →
  Volumes (value_of (applyVolumesFrom container w)).1 !! p = Some hostPath
  ∧ VolumesRW (value_of (applyVolumesFrom container w)).1 !! p
    = VolumesRW container !! p.
Proof. apply applyVolumesFrom_loop_keeps_entries. Qed.

Lemma applyVolumesFrom_keeps_entries_witness :
  Volumes (value_of (applyVolumesFrom (H := TestHost.env donor_registry)
                       inheriting_container_with_data seeded_host)).1 !! "/data"
  = Some "/vol/1"
  ∧ VolumesRW (value_of (applyVolumesFrom (H := TestHost.env donor_registry)
                           inheriting_container_with_data seeded_host)).1 !! "/data"
    = Some true.
Proof.
  apply (applyVolumesFrom_keeps_entries (H := TestHost.env donor_registry)
           inheriting_container_with_data seeded_host "/data" "/vol/1").
  reflexivity.
Defined.

(** X16: when the first volumes-from spec names a container that the daemon
    does not know, [applyVolumesFrom] returns the not-found error at once:
    the container and the host are unchanged, no call has been made, and the
    specs that follow are not looked at.  [prepareVolumesForContainer], for
    a container without volumes, then returns that error with the two maps
    empty, before any volume of the image or the configuration is created. *)
Theorem applyVolumesFrom_unknown_container `{Env W} (container : Container) (w : W)
    (id mode : string) (rest : list string) :
  strings.Count id ":" = 0%nat →
  daemon_Get id = None →
  hostConfig_VolumesFrom container = id :: rest
  ∨ hostConfig_VolumesFrom container = (id +:+ ":" +:+ mode) :: rest →
  applyVolumesFrom container w = ((container, Some (ErrContainerNotFound id)), w, [])
  ∧ (size (Volumes container) = 0%nat →
     prepareVolumesForContainer container w
     = ((set_VolumesRW (set_Volumes container ∅) ∅, Some (ErrContainerNotFound id)),
        w, [])).
Proof.
  intros Hc Hget Hspecs.
  assert (∀ spec c, spec = id ∨ spec = id +:+ ":" +:+ mode →
            parseVolumesFromSpec c spec = Err (ErrContainerNotFound id)) as Hparse.
  { intros spec c Hspec. unfold parseVolumesFromSpec.
    assert (nth 0 (strings.SplitN spec ":" 2) "" = id
            ∧ length (strings.SplitN spec ":" 2) ≠ 0%nat) as [Hid Hlen].
    { destruct Hspec as [->| ->].
      - simpl. by rewrite Cut_without_sep.
      - by rewrite SplitN_two_fields. }
    rewrite bool_decide_eq_false_2 by done. by rewrite Hid, Hget. }
  split.
  - unfold applyVolumesFrom. destruct Hspecs as [-> | ->]; simpl; rewrite Hparse; auto.
  - intros Hsize. unfold prepareVolumesForContainer, applyVolumesFrom, bind.
    rewrite bool_decide_eq_true_2 by done. cbn [hostConfig_VolumesFrom set_VolumesRW set_Volumes].
    destruct Hspecs as [-> | ->]; simpl; rewrite Hparse; auto.
Qed.

Lemma applyVolumesFrom_unknown_container_witness :
  prepareVolumesForContainer (H := TestHost.env donor_registry) orphan_container seeded_host
  = ((orphan_container, Some (ErrContainerNotFound "ghost")), seeded_host, []).
Proof.
  refine (proj2 (applyVolumesFrom_unknown_container (H := TestHost.env donor_registry)
                   orphan_container seeded_host "ghost" "ro" ["donor"] eq_refl _ _) _).
  - by vm_compute.
  - by right.
  - reflexivity.
Defined.

(** [parseVolumesFromSpec] reads nothing of the container it is called on. *)
Lemma parseVolumesFromSpec_any_container `{Env W} (c1 c2 : Container) (spec : string) :
  parseVolumesFromSpec c1 spec = parseVolumesFromSpec c2 spec.
Proof. reflexivity. Qed.

Lemma applyVolumesFrom_loop_ok `{Env W} (specs : list string)
    (container : Container) (w : W) (spec : string) :
  (value_of (applyVolumesFrom_loop specs container w)).2 = None →
  In spec specs →
  ∃ volumes,
    parseVolumesFromSpec container spec = Ok volumes
    ∧ ∀ p vol, volumes !! p = Some vol →
        is_Some (Volumes (value_of (applyVolumesFrom_loop specs container w)).1
                   !! filepath.Clean (VolPath vol)).
Proof.
  revert container w. induction specs as [|spec0 specs IH]; intros container w; [done|].
  simpl.
  destruct (parseVolumesFromSpec container spec0) as [volumes|err] eqn:Hparse; [|done].
  unfold bind.
  pose proof (range_initialize_ok (range_map volumes).*2 container w) as Hok.
  destruct (range_initialize (range_map volumes).*2 container w) as [[[c1 e] w1] t1].
  unfold value_of in Hok. simpl in *.
  destruct e as [err|]; [done|].
  pose proof (IH c1 w1) as IH1.
  pose proof (applyVolumesFrom_loop_keeps_entries specs c1 w1) as Hkeep.
  destruct (applyVolumesFrom_loop specs c1 w1) as [[[c2 e2] w2] t2].
  unfold value_of in *. simpl in *.
  intros He [<-|Hin].
  - exists volumes. split; [done|]. intros p vol Hp.
    destruct (Hok vol eq_refl) as [hp Hhp].
    { apply range_map_values. eauto. }
    destruct (Hkeep _ _ Hhp) as [-> _]. eauto.
  - destruct (IH1 He Hin) as (volumes' & Hparse' & Hall).
    exists volumes'. split; [|done].
    by rewrite (parseVolumesFromSpec_any_container container c1).
Qed.

(** X17: when [applyVolumesFrom] returns [nil], every volumes-from spec of
    the container was accepted by [parseVolumesFromSpec], and the volume set
    has an entry for the cleaned container path of every volume that the
    specs gave. *)
Theorem applyVolumesFrom_ok `{Env W} (container : Container) (w : W) (spec : string) :
  (value_of (applyVolumesFrom container w)).2 = None →
  In spec (hostConfig_VolumesFrom container) →
  ∃ volumes,
    parseVolumesFromSpec container spec = Ok volumes
    ∧ ∀ p vol, volumes !! p = Some vol →
        is_Some (Volumes (value_of (applyVolumesFrom container w)).1
                   !! filepath.Clean (VolPath vol)).
Proof. apply applyVolumesFrom_loop_ok. Qed.

Lemma applyVolumesFrom_ok_witness :
  ∃ volumes,
    parseVolumesFromSpec (H := TestHost.env donor_registry) inheriting_container "donor"
    = Ok volumes
    ∧ ∀ p vol, volumes !! p = Some vol →
        is_Some (Volumes (value_of (applyVolumesFrom (H := TestHost.env donor_registry)
                                      inheriting_container seeded_host)).1
                   !! filepath.Clean (VolPath vol)).
Proof.
  apply (applyVolumesFrom_ok (H := TestHost.env donor_registry) inheriting_container
           seeded_host "donor").
  - by vm_compute.
  - by left.
Defined.

Lemma range_initialize_same_keys `{Env W} (volumes : list Volume)
    (container : Container) (w : W) :
  dom (Volumes container) = dom (VolumesRW container) →
  dom (Volumes (value_of (range_initialize volumes container w)).1)
  = dom (VolumesRW (value_of (range_initialize volumes container w)).1).
Proof.
  revert container w. induction volumes as [|v volumes IH]; intros container w Hdom; [done|].
  simpl. unfold bind.
  pose proof (initialize_same_keys v container w Hdom) as Hkeys.
  destruct (initialize v container w) as [[[[v1 c1] e] w1] t1].
  unfold container_of in Hkeys. simpl in *.
  destruct e as [err|]; [done|].
  pose proof (IH c1 w1 Hkeys) as IH1.
  destruct (range_initialize volumes c1 w1) as [[[c2 e2] w2] t2].
  by unfold value_of in *.
Qed.

Lemma applyVolumesFrom_loop_same_keys `{Env W} (specs : list string)
    (container : Container) (w : W) :
  dom (Volumes container) = dom (VolumesRW container) →
  dom (Volumes (value_of (applyVolumesFrom_loop specs container w)).1)
  = dom (VolumesRW (value_of (applyVolumesFrom_loop specs container w)).1).
Proof.
  revert container w. induction specs as [|spec specs IH]; intros container w Hdom; [done|].
  simpl. destruct (parseVolumesFromSpec container spec) as [volumes|err]; [|done].
  unfold bind.
  pose proof (range_initialize_same_keys (range_map volumes).*2 container w Hdom) as Hkeys.
  destruct (range_initialize (range_map volumes).*2 container w) as [[[c1 e] w1] t1].
  unfold value_of in Hkeys. simpl in *.
  destruct e as [err|]; [done|].
  pose proof (IH c1 w1 Hkeys) as IH1.
  destruct (applyVolumesFrom_loop specs c1 w1) as [[[c2 e2] w2] t2].
  by unfold value_of in *.
Qed.

Lemma createVolumes_same_keys `{Env W} (container : Container) (w : W) :
  dom (Volumes container) = dom (VolumesRW container) →
  dom (Volumes (value_of (createVolumes container w)).1)
  = dom (VolumesRW (value_of (createVolumes container w)).1).
Proof.
  intros Hdom. unfold createVolumes.
  destruct (container_GetVolumes container); [|done].
  by apply range_initialize_same_keys.
Qed.

(** X18: after [prepareVolumesForContainer], whether it failed or not, the
    volume set and the map of the read-write flags have the same keys,
    provided they had before or the volume set was empty: every volume has
    its flag. *)
Theorem prepareVolumesForContainer_same_keys `{Env W} (container : Container) (w : W) :
  size (Volumes container) = 0%nat ∨ dom (Volumes container) = dom (VolumesRW container) →
  dom (Volumes (value_of (prepareVolumesForContainer container w)).1)
  = dom (VolumesRW (value_of (prepareVolumesForContainer container w)).1).
Proof.
  intros Hdom. unfold prepareVolumesForContainer.
  case_bool_decide as Hsize.
  - unfold bind, applyVolumesFrom. cbn [hostConfig_VolumesFrom set_VolumesRW set_Volumes].
    set (c0 := set_VolumesRW (set_Volumes container ∅) ∅).
    pose proof (applyVolumesFrom_loop_same_keys (hostConfig_VolumesFrom container) c0 w
                  eq_refl) as Hkeys.
    destruct (applyVolumesFrom_loop (hostConfig_VolumesFrom container) c0 w)
      as [[[c1 e] w1] t1].
    unfold value_of in Hkeys. simpl in *.
    destruct e as [err|]; [done|].
    pose proof (createVolumes_same_keys c1 w1 Hkeys) as Hkeys'.
    destruct (createVolumes c1 w1) as [[[c2 e2] w2] t2].
    by unfold value_of in *.
  - destruct Hdom as [Hdom|Hdom]; [done|]. by apply createVolumes_same_keys.
Qed.

Lemma prepareVolumesForContainer_same_keys_witness :
  dom (Volumes (value_of (prepareVolumesForContainer (H := TestHost.env donor_registry)
                            inheriting_container seeded_host)).1)
  = dom (VolumesRW (value_of (prepareVolumesForContainer (H := TestHost.env donor_registry)
                                inheriting_container seeded_host)).1).
Proof.
  apply (prepareVolumesForContainer_same_keys (H := TestHost.env donor_registry)
           inheriting_container seeded_host).
  left. reflexivity.
Defined.

(** ** More on the mount list *)

Lemma setupMountsForContainer_mounts `{Env W} (container : Container) :
  command_Mounts (setupMountsForContainer container).1
  = ([mkMount (ResolvConfPath container) "/etc/resolv.conf" true false true]
     ++ (if decide (HostnamePath container = "") then []
         else [mkMount (HostnamePath container) "/etc/hostname" true true false])
     ++ (if decide (HostsPath container = "") then []
         else [mkMount (HostsPath container) "/etc/hosts" true false true]))
    ++ map (λ path, mkMount (index_string (Volumes container) path) path
                      (index_bool (VolumesRW container) path) false false)
         (sortedVolumeMounts container).
Proof.
  unfold setupMountsForContainer. cbn [fst command_Mounts set_Mounts].
  rewrite foldl_append_one.
  destruct (decide (HostnamePath container = "")) as [Hn|Hn];
    destruct (decide (HostsPath container = "")) as [Hh|Hh];
    rewrite ?(bool_decide_eq_false_2 (HostnamePath container ≠ "")) by auto;
    rewrite ?(bool_decide_eq_true_2 (HostnamePath container ≠ "")) by auto;
    rewrite ?(bool_decide_eq_false_2 (HostsPath container ≠ "")) by auto;
    rewrite ?(bool_decide_eq_true_2 (HostsPath container ≠ "")) by auto;
    reflexivity.
Qed.

Lemma sortedVolumeMounts_lookup `{Env W} (container : Container) (p : string) :
  In p (sortedVolumeMounts container) ↔ is_Some (Volumes container !! p).
Proof.
  rewrite <- list_elem_of_In, sortedVolumeMounts_keys, list_elem_of_fmap. split.
  - intros [[p' h] [-> Hin]]. apply elem_of_map_to_list in Hin. eauto.
  - intros [h Hh]. exists (p, h). split; [done|]. by apply elem_of_map_to_list.
Qed.

(** X19: the result of [setupMountsForContainer] depends neither on the
    order in which the volume map is visited nor on the mounts that the
    container had before: two hosts that enumerate the map differently give
    the same container, and setting up the mounts a second time changes
    nothing. *)
Theorem setupMountsForContainer_iteration_order {W1 W2 : Type}
    (E1 : Env W1) (E2 : Env W2) (container : Container) (mounts : list Mount) :
  setupMountsForContainer (H := E1) (set_Mounts container mounts)
  = setupMountsForContainer (H := E2) container.
Proof.
  unfold setupMountsForContainer.
  assert (sortedVolumeMounts (H := E1) (set_Mounts container mounts)
          = sortedVolumeMounts (H := E2) container) as ->.
  { apply (sortedVolumeMounts_unique (H := E1)).
    - apply (sortedVolumeMounts_sorted (H := E2)).
    - exact (sortedVolumeMounts_keys (H := E2) container). }
  reflexivity.
Qed.

(** X20: the mount list has one mount for resolv.conf, one for each of
    hostname and hosts that is configured, and one for each volume.  Every
    entry of the volume set has its mount, from the recorded host path to the
    container path, writable when the flag recorded for the path is set and
    read-only when it is unset or missing; and every mount that is neither
    private nor slave is the mount of such an entry. *)
Theorem setupMountsForContainer_one_mount_per_volume `{Env W} (container : Container) :
  length (command_Mounts (setupMountsForContainer container).1)
  = (1 + (if decide (HostnamePath container = "") then 0 else 1)
     + (if decide (HostsPath container = "") then 0 else 1)
     + size (Volumes container))%nat
  ∧ (∀ p hostPath,
       Volumes container !! p = Some hostPath →
       In (mkMount hostPath p (default false (VolumesRW container !! p)) false false)
          (command_Mounts (setupMountsForContainer container).1))
  ∧ (∀ m,
       In m (command_Mounts (setupMountsForContainer container).1) →
       Private m = false → Slave m = false →
       Volumes container !! Destination m = Some (Source m)
       ∧ Writable m = default false (VolumesRW container !! Destination m)).
Proof.
  rewrite setupMountsForContainer_mounts. split; [|split].
  - rewrite !length_app, length_map.
    rewrite (Permutation_length (sortedVolumeMounts_keys container)).
    rewrite length_fmap, length_map_to_list.
    by repeat case_decide.
  - intros p hostPath Hp. apply in_or_app. right.
    apply in_map_iff. exists p. split.
    + unfold index_string, index_bool. by rewrite Hp.
    + apply sortedVolumeMounts_lookup. eauto.
  - intros m Hin Hprivate Hslave.
    apply in_app_or in Hin as [Hin|Hin].
    + repeat case_decide; simpl in Hin;
        repeat (destruct Hin as [<-|Hin]; [done|]); by destruct Hin.
    + apply in_map_iff in Hin as (p & <- & Hin).
      apply sortedVolumeMounts_lookup in Hin as [hostPath Hp].
      unfold index_string, index_bool. simpl. by rewrite Hp.
Qed.
